(** * SimpleBlockchainApp: the ledger of [blockchain.py]

    A shallow embedding of the class [Blockchain] (module [blockchain.py])
    and the properties of its operations [mine_block], [validate_block],
    [is_chain_valid], [delete_block] and [clear].

    Conventions of the embedding:
    - a Python [int] is a [Z];
    - a Python [str] is a [string] whose characters are the code points
      U+0000..U+00FF (one [ascii] per code point);
    - [bytes] are [list byte];
    - a block (a [dict] with five fixed keys) is the record [Block];
    - [self.chain] is a [list Block]; every dictionary is created by
      [_create_block] and appended once, so no object occurs twice in the
      list and the in-place updates of [delete_block] are updates by
      position;
    - [datetime.now()] is an input of the operations that read the clock;
    - the unbounded [while] of [_proof_of_work] takes a fuel argument, and
      an operation returns a [result]: a value, an exception
      ([IndexError] for an index out of range, [ValueError] for
      [list.remove] of an absent element), or [OutOfFuel].

    The class is embedded twice. The first embedding takes the
    conversions [str(n)], [json.dumps] and [str.encode] as total
    functions, which they are on integers of at most 4300 digits and on
    strings of code points up to U+00FF; the statements about the shape of
    the chain are made on it. The module [Exact] is the same class with
    strings over all code points and with the exceptions of the
    conversions; the statements about what the calls raise, and about
    what [is_chain_valid] answers on arbitrary blocks, are made on it. The
    two agree where the first is defined ([validate_block_agrees]). *)

From Stdlib Require Import ZArith NArith List String Ascii Bool Lia.
From Stdlib.Strings Require Import Byte.
From Stdlib Require Import DecimalString DecimalZ DecimalPos.
From stdpp Require Import base list.

Import ListNotations.
Local Open Scope string_scope.

(** ** [hashlib.sha256]: FIPS 180-4 on 32-bit words held in [N] *)

Module SHA256.

Local Open Scope N_scope.

Definition mask32 : N := 0xFFFFFFFF.
Definition w32 (x : N) : N := N.land x mask32.
Definition add32 (x y : N) : N := w32 (x + y).
Definition not32 (x : N) : N := N.lxor x mask32.
Definition rotr (n x : N) : N :=
  N.lor (N.shiftr x n) (w32 (N.shiftl x (32 - n))).

Definition Ch (x y z : N) : N := N.lxor (N.land x y) (N.land (not32 x) z).
Definition Maj (x y z : N) : N :=
  N.lxor (N.lxor (N.land x y) (N.land x z)) (N.land y z).
Definition Sigma0 (x : N) : N :=
  N.lxor (N.lxor (rotr 2 x) (rotr 13 x)) (rotr 22 x).
Definition Sigma1 (x : N) : N :=
  N.lxor (N.lxor (rotr 6 x) (rotr 11 x)) (rotr 25 x).
Definition sigma0 (x : N) : N :=
  N.lxor (N.lxor (rotr 7 x) (rotr 18 x)) (N.shiftr x 3).
Definition sigma1 (x : N) : N :=
  N.lxor (N.lxor (rotr 17 x) (rotr 19 x)) (N.shiftr x 10).

(** The constants are taken from their definition: the first 32 bits of
    the fractional parts of the cube roots (for [K]) and of the square
    roots (for [H0]) of the first primes. *)
Definition is_prime (n : N) : bool :=
  forallb (fun d => negb (n mod N.of_nat d =? 0)) (seq 2 (N.to_nat n - 2)).

Fixpoint primes_from (fuel count : nat) (n : N) : list N :=
  match fuel, count with
  | S fuel', S count' =>
      if is_prime n then n :: primes_from fuel' count' (n + 1)
      else primes_from fuel' count (n + 1)
  | _, _ => []
  end.

(** The largest [r] below [2 ^ bits] with [r ^ k <= x], one bit at a time *)
Fixpoint root_bits (k x : N) (bits : nat) (r : N) : N :=
  match bits with
  | O => r
  | S b =>
      let r' := N.lor r (N.shiftl 1 (N.of_nat b)) in
      root_bits k x b (if r' ^ k <=? x then r' else r)
  end.

Definition frac_root (k p : N) : N :=
  w32 (root_bits k (p * 2 ^ (32 * k)) 36 0).

Definition K : list N :=
  Eval vm_compute in map (frac_root 3) (primes_from 400 64 2).

Definition H0 : list N :=
  Eval vm_compute in map (frac_root 2) (primes_from 400 8 2).

(** Message schedule: [rev_w] holds the words computed so far, latest
    first, so that W[t-2], W[t-7], W[t-15], W[t-16] sit at offsets
    1, 6, 14, 15. *)
Fixpoint expand (n : nat) (rev_w : list N) : list N :=
  match n with
  | O => rev_w
  | S n' =>
      let w := add32 (add32 (sigma1 (nth 1 rev_w 0)) (nth 6 rev_w 0))
                     (add32 (sigma0 (nth 14 rev_w 0)) (nth 15 rev_w 0)) in
      expand n' (w :: rev_w)
  end.

Definition schedule (m : list N) : list N := rev (expand 48 (rev m)).

Record regs := Regs { ra : N; rb : N; rc : N; rd : N;
                      re : N; rf : N; rg : N; rh : N }.

Definition round (s : regs) (kw : N * N) : regs :=
  let t1 := add32 (add32 (add32 (rh s) (Sigma1 (re s)))
                         (add32 (Ch (re s) (rf s) (rg s)) (fst kw)))
                  (snd kw) in
  let t2 := add32 (Sigma0 (ra s)) (Maj (ra s) (rb s) (rc s)) in
  Regs (add32 t1 t2) (ra s) (rb s) (rc s) (add32 (rd s) t1) (re s) (rf s) (rg s).

Definition regs_of (h : list N) : regs :=
  Regs (nth 0 h 0) (nth 1 h 0) (nth 2 h 0) (nth 3 h 0)
       (nth 4 h 0) (nth 5 h 0) (nth 6 h 0) (nth 7 h 0).

Definition list_of (s : regs) : list N :=
  [ra s; rb s; rc s; rd s; re s; rf s; rg s; rh s].

Definition compress (h : list N) (m : list N) : list N :=
  let s := fold_left round (combine K (schedule m)) (regs_of h) in
  map (fun p => add32 (fst p) (snd p)) (combine h (list_of s)).

(** Padding: the bit 1, zeros up to 56 mod 64 bytes, then the bit length
    on 8 bytes, big-endian. *)
Fixpoint be_bytes (n : nat) (x : N) : list N :=
  match n with
  | O => []
  | S n' => N.land (N.shiftr x (8 * N.of_nat n')) 0xFF :: be_bytes n' x
  end.

Definition pad (msg : list N) : list N :=
  let len := N.of_nat (length msg) in
  let zeros := N.to_nat ((119 - len mod 64) mod 64) in
  msg ++ 0x80 :: repeat 0 zeros ++ be_bytes 8 (8 * len).

Fixpoint words (fuel : nat) (bs : list N) : list N :=
  match fuel, bs with
  | S fuel', b0 :: b1 :: b2 :: b3 :: rest =>
      N.lor (N.lor (N.shiftl b0 24) (N.shiftl b1 16))
            (N.lor (N.shiftl b2 8) b3) :: words fuel' rest
  | _, _ => []
  end.

Fixpoint blocks (fuel : nat) (ws : list N) (h : list N) : list N :=
  match fuel, ws with
  | S fuel', _ :: _ => blocks fuel' (skipn 16 ws) (compress h (firstn 16 ws))
  | _, _ => h
  end.

Definition digest_words (msg : list byte) : list N :=
  let bs := pad (map Byte.to_N msg) in
  let ws := words (length bs) bs in
  blocks (length ws) ws H0.

Definition hex_digit (d : N) : ascii :=
  ascii_of_N (if d <? 10 then 48 + d else 87 + d).

Fixpoint hex_of (digits : nat) (x : N) : string :=
  match digits with
  | O => EmptyString
  | S n => String (hex_digit (N.land (N.shiftr x (4 * N.of_nat n)) 0xF))
                  (hex_of n x)
  end.

(** [hashlib.sha256(msg).hexdigest()]: 64 lowercase hexadecimal digits. *)
Definition hexdigest (msg : list byte) : string :=
  fold_right (fun w acc => hex_of 8 w ++ acc) EmptyString (digest_words msg).

End SHA256.


(** ** Python values: integers, strings, bytes, exceptions *)

(** [str(n)] for an [int]: decimal digits, with a leading minus sign.
    This is the value of [str(n)] when [n] has at most 4300 digits; beyond
    that [str] raises, see [Exact.str]. *)
Definition str_of_int (n : Z) : string := NilZero.string_of_int (Z.to_int n).

(** [s.encode()]: UTF-8. A code point below U+0080 is one byte, a code
    point in U+0080..U+00FF is the two bytes 110000xx 10xxxxxx. The other
    code points are those of [Exact.encode]. *)
Definition encode_char (c : ascii) : list byte :=
  let n := nat_of_ascii c in
  if (n <? 128)%nat then [byte_of_ascii c]
  else [byte_of_ascii (ascii_of_nat (192 + n / 64));
        byte_of_ascii (ascii_of_nat (128 + n mod 64))].

Fixpoint encode (s : string) : list byte :=
  match s with
  | EmptyString => []
  | String c s' => encode_char c ++ encode s'
  end.

(** [s[:4]] *)
Definition slice4 (s : string) : string := substring 0 4 s.

Inductive exn : Type := IndexError | ValueError.

Inductive result (A : Type) : Type :=
| Ok (a : A)
| Raise (e : exn)
| OutOfFuel.

Arguments Ok {A} a.
Arguments Raise {A} e.
Arguments OutOfFuel {A}.

Definition bind {A B : Type} (r : result A) (k : A -> result B) : result B :=
  match r with
  | Ok a => k a
  | Raise e => Raise e
  | OutOfFuel => OutOfFuel
  end.

Notation "'do' x <- r ; k" := (bind r (fun x => k))
  (at level 10, x name, r at level 100, k at level 200).

(** [l[i]] for [0 <= i] *)
Definition getitem {A : Type} (l : list A) (i : nat) : result A :=
  match l !! i with
  | Some x => Ok x
  | None => Raise IndexError
  end.

(** [range(start, stop)] and [range(start, stop, -1)] over the naturals.
    [delete_block] calls the second with [len(chain) - 1], which is -1 for
    an empty list; truncated subtraction gives 0 there, and both ranges are
    empty. *)
Definition range (start stop : nat) : list nat := seq start (stop - start).
Definition range_down (start stop : nat) : list nat :=
  rev (seq (S stop) (start - stop)).

(** ** [json.dumps(block, sort_keys=True)] *)

Definition dquote : ascii := ascii_of_nat 34.
Definition backslash : ascii := ascii_of_nat 92.

Definition hex4 (n : nat) : string := SHA256.hex_of 4 (N.of_nat n).

(** One character of a JSON string with [ensure_ascii]: printable ASCII
    but the quote and the backslash stands for itself, the five short
    escapes, and [\uXXXX] with lowercase digits for the rest. *)
Definition json_escape_char (c : ascii) : string :=
  let n := nat_of_ascii c in
  if (n =? 34)%nat then String backslash (String dquote EmptyString)
  else if (n =? 92)%nat then String backslash (String backslash EmptyString)
  else if (n =? 8)%nat then String backslash "b"
  else if (n =? 12)%nat then String backslash "f"
  else if (n =? 10)%nat then String backslash "n"
  else if (n =? 13)%nat then String backslash "r"
  else if (n =? 9)%nat then String backslash "t"
  else if ((32 <=? n) && (n <=? 126))%nat then String c EmptyString
  else String backslash ("u" ++ hex4 n).

Fixpoint json_escape (s : string) : string :=
  match s with
  | EmptyString => EmptyString
  | String c s' => json_escape_char c ++ json_escape s'
  end.

Definition json_str (s : string) : string :=
  String dquote (json_escape s ++ String dquote EmptyString).

Definition json_key (k : string) : string := json_str k ++ ": ".

(** ** Blocks *)

Record Block : Type := mkBlock {
  index : Z;
  timestamp : string;
  data : string;
  proof : Z;
  previous_hash : string
}.

(** [b1 == b2] on two dictionaries with these five keys *)
Definition block_eqb (b1 b2 : Block) : bool :=
  (index b1 =? index b2)%Z && String.eqb (timestamp b1) (timestamp b2)
  && String.eqb (data b1) (data b2) && (proof b1 =? proof b2)%Z
  && String.eqb (previous_hash b1) (previous_hash b2).

(** [block["previous_hash"] = h] and [block["proof"] = p] *)
Definition set_previous_hash (h : string) (b : Block) : Block :=
  mkBlock (index b) (timestamp b) (data b) (proof b) h.
Definition set_proof (p : Z) (b : Block) : Block :=
  mkBlock (index b) (timestamp b) (data b) p (previous_hash b).

(** The keys in sorted order: data, index, previous_hash, proof,
    timestamp; separators [", "] and [": "]. *)
Definition json_dumps (block : Block) : string :=
  "{" ++ json_key "data" ++ json_str (data block) ++ ", "
      ++ json_key "index" ++ str_of_int (index block) ++ ", "
      ++ json_key "previous_hash" ++ json_str (previous_hash block) ++ ", "
      ++ json_key "proof" ++ str_of_int (proof block) ++ ", "
      ++ json_key "timestamp" ++ json_str (timestamp block) ++ "}".

(** ** The class [Blockchain] *)

(** [chain] is [self.chain]; [stdout] collects the lines printed. *)
Record Blockchain : Type := mkBlockchain {
  chain : list Block;
  stdout : list string
}.

Definition _create_block (now : string) (data : string) (proof : Z)
    (previous_hash : string) (index : Z) : Block :=
  {| index := index; timestamp := now; data := data; proof := proof;
     previous_hash := previous_hash |}.

(** [__init__], with the clock reading [now] *)
Definition init (now : string) : Blockchain :=
  let initial_block := _create_block now "genesis block" 1 "0" 1 in
  {| chain := [] ++ [initial_block]; stdout := [] |}.

(** [self.chain[-1]] *)
Definition get_previous_block (self : Blockchain) : result Block :=
  match last (chain self) with
  | Some b => Ok b
  | None => Raise IndexError
  end.

Definition _to_digest (new_proof previous_proof index : Z) (data : string)
    : list byte :=
  let to_digest := str_of_int (new_proof ^ 2 - previous_proof ^ 2 + index) ++ data in
  encode to_digest.

(** [hashlib.sha256(self._to_digest(...)).hexdigest()], the expression
    that [_proof_of_work] and [validate_block] both evaluate *)
Definition hash_operation (new_proof previous_proof index : Z) (data : string)
    : string :=
  SHA256.hexdigest (_to_digest new_proof previous_proof index data).

(** The [while not check_proof] loop, from the current [new_proof] *)
Fixpoint _proof_of_work_loop (fuel : nat) (new_proof previous_proof index : Z)
    (data : string) : result Z :=
  match fuel with
  | O => OutOfFuel
  | S fuel' =>
      if String.eqb (slice4 (hash_operation new_proof previous_proof index data)) "0000"
      then Ok new_proof
      else _proof_of_work_loop fuel' (new_proof + 1) previous_proof index data
  end.

Definition _proof_of_work (fuel : nat) (previous_proof index : Z) (data : string)
    : result Z :=
  _proof_of_work_loop fuel 1 previous_proof index data.

Definition _hash (block : Block) : string :=
  let encoded_block := encode (json_dumps block) in
  SHA256.hexdigest encoded_block.

Definition mine_block (fuel : nat) (now : string) (data : string)
    (self : Blockchain) : result (Block * Blockchain) :=
  do previous_block <- get_previous_block self ;
  let previous_proof := proof previous_block in
  let index := (Z.of_nat (length (chain self)) + 1)%Z in
  do proof <- _proof_of_work fuel previous_proof index data ;
  let previous_hash := _hash previous_block in
  let block := _create_block now data proof previous_hash index in
  Ok (block, {| chain := chain self ++ [block]; stdout := stdout self |}).

Definition validate_block (block previous_block : Block) : bool :=
  if negb (String.eqb (previous_hash block) (_hash previous_block)) then false
  else
    let previous_proof := proof previous_block in
    if negb (String.eqb
               (slice4 (hash_operation (proof block) previous_proof
                                       (index block) (data block)))
               "0000")
    then false
    else true.

(** The [for i in range(1, len(self.chain))] loop over the indices left *)
Fixpoint is_chain_valid_loop (chain : list Block) (indices : list nat)
    : result bool :=
  match indices with
  | [] => Ok true
  | i :: indices' =>
      do current_block <- getitem chain i ;
      do previous_block <- getitem chain (i - 1) ;
      if negb (validate_block current_block previous_block) then Ok false
      else is_chain_valid_loop chain indices'
  end.

Definition is_chain_valid (self : Blockchain) : result bool :=
  is_chain_valid_loop (chain self) (range 1 (length (chain self))).

(** The scan [for block in self.chain: if block["proof"] == proof: ... break] *)
Fixpoint find_block (proof0 : Z) (chain : list Block) : option Block :=
  match chain with
  | [] => None
  | block :: rest =>
      if (proof block =? proof0)%Z then Some block else find_block proof0 rest
  end.

(** [l.remove(x)]: drops the first element equal to [x] *)
Fixpoint list_remove (x : Block) (l : list Block) : result (list Block) :=
  match l with
  | [] => Raise ValueError
  | y :: l' =>
      if block_eqb y x then Ok l'
      else (do r <- list_remove x l' ; Ok (y :: r))
  end.

(** The repair loop [for i in range(len(self.chain) - 1, 0, -1)] over the
    indices left; the two assignments update the dictionary at position
    [i] in place. *)
Fixpoint repair_loop (fuel : nat) (chain : list Block) (indices : list nat)
    : result (list Block) :=
  match indices with
  | [] => Ok chain
  | i :: indices' =>
      do current_block <- getitem chain i ;
      do previous_block <- getitem chain (i - 1) ;
      let current_block := set_previous_hash (_hash previous_block) current_block in
      do new_proof <- _proof_of_work fuel (proof previous_block)
                     (index current_block) (data current_block) ;
      let current_block := set_proof new_proof current_block in
      repair_loop fuel (<[i := current_block]> chain) indices'
  end.

(** [if block_to_delete:] holds for every block found, a dictionary with
    five keys. The [else] belongs to the [for]: the loop has no [break], so
    it runs each time the loop ends. *)
Definition delete_block (fuel : nat) (proof : Z) (self : Blockchain)
    : result Blockchain :=
  match find_block proof (chain self) with
  | None => Ok self
  | Some block_to_delete =>
      do chain1 <- list_remove block_to_delete (chain self) ;
      do chain2 <- repair_loop fuel chain1 (range_down (length chain1 - 1) 0) ;
      Ok {| chain := chain2; stdout := stdout self ++ ["!FAILED!"] |}
  end.

Definition clear (self : Blockchain) : result Blockchain :=
  do genesis <- getitem (chain self) 0 ;
  Ok {| chain := [genesis]; stdout := stdout self |}.

(** A sequence of calls on the ledger, as its caller issues them *)
Inductive call : Type :=
| MineBlock (fuel : nat) (now : string) (data : string)
| DeleteBlock (fuel : nat) (proof : Z)
| Clear.

Definition run_call (c : call) (self : Blockchain) : result Blockchain :=
  match c with
  | MineBlock fuel now data =>
      do r <- mine_block fuel now data self ; Ok (snd r)
  | DeleteBlock fuel proof => delete_block fuel proof self
  | Clear => clear self
  end.

Fixpoint run_calls (cs : list call) (self : Blockchain) : result Blockchain :=
  match cs with
  | [] => Ok self
  | c :: cs' => do self' <- run_call c self ; run_calls cs' self'
  end.

(** The block that [__init__] creates at clock reading [now] *)
Definition genesis_block (now : string) : Block :=
  mkBlock 1 now "genesis block" 1 "0".

(** ** Vocabulary of the statements *)

(** The test [hash_operation[:4] == "0000"] on a candidate proof *)
Definition work_condition (new_proof previous_proof index : Z) (data : string)
    : bool :=
  String.eqb (slice4 (hash_operation new_proof previous_proof index data)) "0000".

(** [p] is the first integer from 1 upwards that passes the test *)
Definition least_proof (previous_proof index : Z) (data : string) (p : Z) : Prop :=
  (1 <= p)%Z
  /\ work_condition p previous_proof index data = true
  /\ forall q : Z, (1 <= q < p)%Z -> work_condition q previous_proof index data = false.

(** Every block passes [validate_block] against the block before it *)
Definition valid_links (c : list Block) : Prop :=
  forall (i : nat) (prev cur : Block),
    c !! i = Some prev -> c !! S i = Some cur -> validate_block cur prev = true.

(** [cur] is linked to [prev] with the proof that the search returns *)
Definition sealed (prev cur : Block) : Prop :=
  previous_hash cur = _hash prev
  /\ least_proof (proof prev) (index cur) (data cur) (proof cur).

(** The boolean that [is_chain_valid] computes, by recursion on the list *)
Fixpoint links_ok (prev : Block) (rest : list Block) : bool :=
  match rest with
  | [] => true
  | cur :: rest' => validate_block cur prev && links_ok cur rest'
  end.

Definition chain_ok (c : list Block) : bool :=
  match c with
  | [] => true
  | first :: rest => links_ok first rest
  end.

Definition is_delete (c : call) : bool :=
  match c with DeleteBlock _ _ => true | _ => false end.

(** No call of the sequence is [delete_block(1)] *)
Definition spares_genesis (c : call) : bool :=
  match c with DeleteBlock _ p => negb (p =? 1)%Z | _ => true end.

(** Every block at a position from 1 to [n - 1] is sealed against the
    block before it *)
Definition sealed_below (n : nat) (c : list Block) : Prop :=
  forall (i : nat) (prev cur : Block),
    S i < n -> c !! i = Some prev -> c !! S i = Some cur -> sealed prev cur.

(** What a repaired block is: [new] has the index, timestamp and data of
    [cur], the hash of [prev] and the proof found against [prev] *)
Definition resealed (prev cur new : Block) : Prop :=
  index new = index cur /\ timestamp new = timestamp cur
  /\ data new = data cur /\ previous_hash new = _hash prev
  /\ least_proof (proof prev) (index cur) (data cur) (proof new).

(** The digest in the words of the specification: the SHA-256 hex digest
    of the decimal string of [proof^2 - previous_proof^2 + index]
    concatenated, with no separator, with the bytes of [data] *)
Definition spec_digest (proof previous_proof index : Z) (data : string)
    : string :=
  SHA256.hexdigest
    (encode (str_of_int (proof ^ 2 - previous_proof ^ 2 + index))
     ++ encode data)%list.

(** ** Devices of the proofs about the strings that are hashed *)

(** The 256 characters of the model *)
Definition all_ascii : list ascii := map ascii_of_nat (seq 0 256).

(** The two strings differ at a position that both have *)
Fixpoint string_clash (s1 s2 : string) : bool :=
  match s1, s2 with
  | String c1 r1, String c2 r2 =>
      if Ascii.eqb c1 c2 then string_clash r1 r2 else true
  | _, _ => false
  end.

Fixpoint bytes_clash (l1 l2 : list byte) : bool :=
  match l1, l2 with
  | x1 :: r1, x2 :: r2 => if Byte.eqb x1 x2 then bytes_clash r1 r2 else true
  | _, _ => false
  end.

(** [c] occurs in [s] *)
Fixpoint string_mem (c : ascii) (s : string) : bool :=
  match s with
  | EmptyString => false
  | String x s' => Ascii.eqb x c || string_mem c s'
  end.

(** ** A concrete ledger

    Six clock readings and five payloads, and the blocks that the calls
    below create from them. *)

Module Sample.

Definition t0 : string := "2024-01-01 12:00:00.000000".
Definition t1 : string := "2024-01-01 12:05:00.000000".
Definition t2 : string := "2024-01-01 12:10:00.000000".
Definition t3 : string := "2024-01-01 12:15:00.000000".
Definition t4 : string := "2024-01-01 12:20:00.000000".
Definition t5 : string := "2024-01-01 12:25:00.000000".

Definition d1 : string := "alice->bob:15575".
Definition d2 : string := "bob->carol:191103".
Definition d3 : string := "carol->dave:184733".
Definition d4 : string := "dave->erin:146771".

(** Fuel for every search of the run *)
Definition fuel : nat := 16.

Definition g0 : Block := genesis_block t0.

(** The blocks as [mine_block] creates them on a fresh ledger *)
Definition b1 : Block := mkBlock 2 t1 d1 7
  "9887cc81decc31e65b6dfddda4d05c2390fce914fa384075c6648da5d1935575".
Definition b2 : Block := mkBlock 3 t2 d2 8
  "2705518c00505f8b7f90dde592a91d76d9525d52347c7a7c4036f280023f92d7".
Definition b3 : Block := mkBlock 4 t3 d3 13
  "6341306e82c9d611424f9249dc76ec30bf745b5ee6294787221f09b8adb3c57e".
Definition b4 : Block := mkBlock 5 t4 d4 2
  "d5dcd30e076bc3c7d4c9e2ee197b5f4631fb88177ecdc367f2da67fd7c564ecc".

(** [b2] and [b3] after a repair, and a block mined after a deletion *)
Definition b2' : Block := mkBlock 3 t2 d2 4
  "9887cc81decc31e65b6dfddda4d05c2390fce914fa384075c6648da5d1935575".
Definition b3' : Block := mkBlock 4 t3 d3 11
  "5f693cbf78932896634927842fc6c08f5118c5730fbb667f99aa7bea15b67bbb".

Definition mine3 : list call :=
  [MineBlock fuel t1 d1; MineBlock fuel t2 d2; MineBlock fuel t3 d3].
Definition mine4 : list call := (mine3 ++ [MineBlock fuel t4 d4])%list.

End Sample.

(** ** The conversions with their error paths

    The definitions above take [str(n)], [json.dumps] and [str.encode] on
    the values where they return: integers of at most 4300 digits and
    strings of code points up to U+00FF. The module [Exact] is the same
    class on every Python value: a string is the list of its code points,
    U+0000..U+10FFFF, lone surrogates included; [str(n)] and [json.dumps]
    raise [ValueError] for an integer of more than 4300 digits (the
    default of [sys.get_int_max_str_digits()]); [str.encode] has the four
    forms of UTF-8 and raises [UnicodeEncodeError] on a surrogate;
    [json.dumps] writes a code point above U+FFFF as a surrogate pair. *)

Module Exact.

Local Open Scope list_scope.

Definition pystr : Type := list N.

(** An ASCII literal as a Python string *)
Definition of_ascii (s : string) : pystr :=
  map N_of_ascii (list_ascii_of_string s).

Fixpoint pystr_eqb (s1 s2 : pystr) : bool :=
  match s1, s2 with
  | [], [] => true
  | c1 :: r1, c2 :: r2 => (c1 =? c2)%N && pystr_eqb r1 r2
  | _, _ => false
  end.

(** The exceptions that the class raises. In Python
    [UnicodeEncodeError] is a subclass of [ValueError]; nothing in the
    class catches either, and they are kept apart here. *)
Inductive exn : Type := IndexError | ValueError | UnicodeEncodeError.

Inductive result (A : Type) : Type :=
| Ok (a : A)
| Raise (e : exn)
| OutOfFuel.

Arguments Ok {A} a.
Arguments Raise {A} e.
Arguments OutOfFuel {A}.

Definition bind {A B : Type} (r : result A) (k : A -> result B) : result B :=
  match r with
  | Ok a => k a
  | Raise e => Raise e
  | OutOfFuel => OutOfFuel
  end.

Notation "'run' x <- r ; k" := (bind r (fun x => k))
  (at level 10, x name, r at level 100, k at level 200).

Definition getitem {A : Type} (l : list A) (i : nat) : result A :=
  match l !! i with
  | Some x => Ok x
  | None => Raise IndexError
  end.

(** [sys.get_int_max_str_digits()] *)
Definition int_max_str_digits : nat := 4300.

(** The number of decimal digits of [n], the sign not counted *)
Definition digits (n : Z) : nat :=
  let s := NilZero.string_of_int (Z.to_int n) in
  if (n <? 0)%Z then String.length s - 1 else String.length s.

(** [str(n)], and the integer part of [json.dumps] *)
Definition str (n : Z) : result pystr :=
  if (int_max_str_digits <? digits n)%nat then Raise ValueError
  else Ok (of_ascii (NilZero.string_of_int (Z.to_int n))).

(** The code points U+D800..U+DFFF, which UTF-8 does not encode *)
Definition surrogate (c : N) : Prop := (0xD800 <= c <= 0xDFFF)%N.

Definition has_surrogate (s : pystr) : Prop := Exists surrogate s.

Definition byte_of_N (n : N) : byte := byte_of_ascii (ascii_of_N n).

(** UTF-8 of one code point *)
Definition encode_char (c : N) : result (list byte) :=
  (if c <? 0x80 then Ok [byte_of_N c]
   else if c <? 0x800 then
     Ok [byte_of_N (0xC0 + c / 0x40); byte_of_N (0x80 + c mod 0x40)]
   else if c <? 0x10000 then
     if (0xD800 <=? c) && (c <=? 0xDFFF) then Raise UnicodeEncodeError
     else Ok [byte_of_N (0xE0 + c / 0x1000);
              byte_of_N (0x80 + (c / 0x40) mod 0x40);
              byte_of_N (0x80 + c mod 0x40)]
   else Ok [byte_of_N (0xF0 + c / 0x40000);
            byte_of_N (0x80 + (c / 0x1000) mod 0x40);
            byte_of_N (0x80 + (c / 0x40) mod 0x40);
            byte_of_N (0x80 + c mod 0x40)])%N.

(** [s.encode()] *)
Fixpoint encode (s : pystr) : result (list byte) :=
  match s with
  | [] => Ok []
  | c :: s' =>
      run b <- encode_char c ;
      run r <- encode s' ;
      Ok (b ++ r)
  end.

(** [hashlib.sha256(bs).hexdigest()] *)
Definition hexdigest (bs : list byte) : pystr := of_ascii (SHA256.hexdigest bs).

Definition u_escape (n : N) : pystr :=
  of_ascii (String backslash "u") ++ of_ascii (SHA256.hex_of 4 n).

(** One code point of a JSON string with [ensure_ascii]; a code point
    above U+FFFF is written as its two UTF-16 surrogates. *)
Definition json_escape_char (c : N) : pystr :=
  (if c =? 34 then of_ascii (String backslash (String dquote EmptyString))
   else if c =? 92 then of_ascii (String backslash (String backslash EmptyString))
   else if c =? 8 then of_ascii (String backslash "b")
   else if c =? 12 then of_ascii (String backslash "f")
   else if c =? 10 then of_ascii (String backslash "n")
   else if c =? 13 then of_ascii (String backslash "r")
   else if c =? 9 then of_ascii (String backslash "t")
   else if (32 <=? c) && (c <=? 126) then [c]
   else if c <? 0x10000 then u_escape c
   else
     let v := c - 0x10000 in
     u_escape (0xD800 + (v / 0x400) mod 0x400) ++ u_escape (0xDC00 + v mod 0x400))%N.

Fixpoint json_escape (s : pystr) : pystr :=
  match s with
  | [] => []
  | c :: s' => json_escape_char c ++ json_escape s'
  end.

Definition json_str (s : pystr) : pystr :=
  [34%N] ++ json_escape s ++ [34%N].

Definition json_key (k : string) : pystr :=
  json_str (of_ascii k) ++ of_ascii ": ".

Record Block : Type := mkBlock {
  index : Z;
  timestamp : pystr;
  data : pystr;
  proof : Z;
  previous_hash : pystr
}.

Definition block_eqb (b1 b2 : Block) : bool :=
  (index b1 =? index b2)%Z && pystr_eqb (timestamp b1) (timestamp b2)
  && pystr_eqb (data b1) (data b2) && (proof b1 =? proof b2)%Z
  && pystr_eqb (previous_hash b1) (previous_hash b2).

Definition set_previous_hash (h : pystr) (b : Block) : Block :=
  mkBlock (index b) (timestamp b) (data b) (proof b) h.
Definition set_proof (p : Z) (b : Block) : Block :=
  mkBlock (index b) (timestamp b) (data b) p (previous_hash b).

(** [json.dumps(block, sort_keys=True)] *)
Definition json_dumps (block : Block) : result pystr :=
  run i <- str (index block) ;
  run p <- str (proof block) ;
  Ok (of_ascii "{" ++ json_key "data" ++ json_str (data block)
      ++ of_ascii ", " ++ json_key "index" ++ i
      ++ of_ascii ", " ++ json_key "previous_hash"
      ++ json_str (previous_hash block)
      ++ of_ascii ", " ++ json_key "proof" ++ p
      ++ of_ascii ", " ++ json_key "timestamp" ++ json_str (timestamp block)
      ++ of_ascii "}").

Record Blockchain : Type := mkBlockchain {
  chain : list Block;
  stdout : list string
}.

Definition _create_block (now : pystr) (data : pystr) (proof : Z)
    (previous_hash : pystr) (index : Z) : Block :=
  {| index := index; timestamp := now; data := data; proof := proof;
     previous_hash := previous_hash |}.

Definition init (now : pystr) : Blockchain :=
  let initial_block :=
    _create_block now (of_ascii "genesis block") 1 (of_ascii "0") 1 in
  {| chain := [] ++ [initial_block]; stdout := [] |}.

Definition get_previous_block (self : Blockchain) : result Block :=
  match last (chain self) with
  | Some b => Ok b
  | None => Raise IndexError
  end.

Definition _to_digest (new_proof previous_proof index : Z) (data : pystr)
    : result (list byte) :=
  run n <- str (new_proof ^ 2 - previous_proof ^ 2 + index) ;
  let to_digest := n ++ data in
  encode to_digest.

Definition hash_operation (new_proof previous_proof index : Z) (data : pystr)
    : result pystr :=
  run to_digest <- _to_digest new_proof previous_proof index data ;
  Ok (hexdigest to_digest).

(** The test [hash_operation[:4] == "0000"] *)
Definition starts_0000 (hash_operation : pystr) : bool :=
  pystr_eqb (take 4 hash_operation) (of_ascii "0000").

Fixpoint _proof_of_work_loop (fuel : nat) (new_proof previous_proof index : Z)
    (data : pystr) : result Z :=
  match fuel with
  | O => OutOfFuel
  | S fuel' =>
      run hash_operation <-
        hash_operation new_proof previous_proof index data ;
      if starts_0000 hash_operation then Ok new_proof
      else _proof_of_work_loop fuel' (new_proof + 1) previous_proof index data
  end.

Definition _proof_of_work (fuel : nat) (previous_proof index : Z) (data : pystr)
    : result Z :=
  _proof_of_work_loop fuel 1 previous_proof index data.

Definition _hash (block : Block) : result pystr :=
  run dumped <- json_dumps block ;
  run encoded_block <- encode dumped ;
  Ok (hexdigest encoded_block).

Definition mine_block (fuel : nat) (now : pystr) (data : pystr)
    (self : Blockchain) : result (Block * Blockchain) :=
  run previous_block <- get_previous_block self ;
  let previous_proof := proof previous_block in
  let index := (Z.of_nat (length (chain self)) + 1)%Z in
  run proof <- _proof_of_work fuel previous_proof index data ;
  run previous_hash <- _hash previous_block ;
  let block := _create_block now data proof previous_hash index in
  Ok (block, {| chain := chain self ++ [block]; stdout := stdout self |}).

Definition validate_block (block previous_block : Block) : result bool :=
  run h <- _hash previous_block ;
  if negb (pystr_eqb (previous_hash block) h) then Ok false
  else
    let previous_proof := proof previous_block in
    run hash_operation <-
      hash_operation (proof block) previous_proof (index block) (data block) ;
    if negb (starts_0000 hash_operation) then Ok false
    else Ok true.

Fixpoint is_chain_valid_loop (chain : list Block) (indices : list nat)
    : result bool :=
  match indices with
  | [] => Ok true
  | i :: indices' =>
      run current_block <- getitem chain i ;
      run previous_block <- getitem chain (i - 1) ;
      run v <- validate_block current_block previous_block ;
      if negb v then Ok false
      else is_chain_valid_loop chain indices'
  end.

Definition is_chain_valid (self : Blockchain) : result bool :=
  is_chain_valid_loop (chain self) (range 1 (length (chain self))).

Fixpoint find_block (proof0 : Z) (chain : list Block) : option Block :=
  match chain with
  | [] => None
  | block :: rest =>
      if (proof block =? proof0)%Z then Some block else find_block proof0 rest
  end.

Fixpoint list_remove (x : Block) (l : list Block) : result (list Block) :=
  match l with
  | [] => Raise ValueError
  | y :: l' =>
      if block_eqb y x then Ok l'
      else (run r <- list_remove x l' ; Ok (y :: r))
  end.

Fixpoint repair_loop (fuel : nat) (chain : list Block) (indices : list nat)
    : result (list Block) :=
  match indices with
  | [] => Ok chain
  | i :: indices' =>
      run current_block <- getitem chain i ;
      run previous_block <- getitem chain (i - 1) ;
      run h <- _hash previous_block ;
      let current_block := set_previous_hash h current_block in
      run new_proof <- _proof_of_work fuel (proof previous_block)
                         (index current_block) (data current_block) ;
      let current_block := set_proof new_proof current_block in
      repair_loop fuel (<[i := current_block]> chain) indices'
  end.

Definition delete_block (fuel : nat) (proof : Z) (self : Blockchain)
    : result Blockchain :=
  match find_block proof (chain self) with
  | None => Ok self
  | Some block_to_delete =>
      run chain1 <- list_remove block_to_delete (chain self) ;
      run chain2 <- repair_loop fuel chain1 (range_down (length chain1 - 1) 0) ;
      Ok {| chain := chain2; stdout := stdout self ++ ["!FAILED!"] |}
  end.

Definition clear (self : Blockchain) : result Blockchain :=
  run genesis <- getitem (chain self) 0 ;
  Ok {| chain := [genesis]; stdout := stdout self |}.

(** The work test on a candidate proof, as the search and
    [validate_block] both make it *)
Definition work_test (new_proof previous_proof index : Z) (data : pystr)
    : result bool :=
  run h <- hash_operation new_proof previous_proof index data ;
  Ok (starts_0000 h).

(** The search reaches [p]: every candidate before it is computed and
    fails the test, and [p] passes *)
Definition least_proof (previous_proof index : Z) (data : pystr) (p : Z) : Prop :=
  (1 <= p)%Z
  /\ work_test p previous_proof index data = Ok true
  /\ forall q : Z, (1 <= q < p)%Z ->
       work_test q previous_proof index data = Ok false.

(** The verdict of [is_chain_valid], by recursion on the list *)
Fixpoint links (prev : Block) (rest : list Block) : result bool :=
  match rest with
  | [] => Ok true
  | cur :: rest' =>
      run v <- validate_block cur prev ;
      if negb v then Ok false else links cur rest'
  end.

Definition verdict (c : list Block) : result bool :=
  match c with
  | [] => Ok true
  | first :: rest => links first rest
  end.

End Exact.

(** The exceptions that the conversions of the class raise: [ValueError]
    from [str] and [json.dumps] on an integer of more than 4300 digits,
    [UnicodeEncodeError] from [str.encode] on a surrogate. *)
Definition conversion_error (e : Exact.exn) : Prop :=
  e = Exact.ValueError \/ e = Exact.UnicodeEncodeError.

(** Every pair of neighbours of the list passes [validate_block] *)
Definition all_pairs_pass (c : list Exact.Block) : Prop :=
  forall (i : nat) (prev cur : Exact.Block),
    c !! i = Some prev -> c !! S i = Some cur ->
    Exact.validate_block cur prev = Exact.Ok true.

(** The pair at [i], [S i] is the first one that does not pass, and [r]
    is what [validate_block] gives on it: [Ok false] or an exception *)
Definition first_failing_pair (c : list Exact.Block) (i : nat)
    (r : Exact.result bool) : Prop :=
  exists prev cur : Exact.Block,
    c !! i = Some prev /\ c !! S i = Some cur
    /\ Exact.validate_block cur prev = r
    /\ forall (j : nat) (p q : Exact.Block), j < i ->
         c !! j = Some p -> c !! S j = Some q ->
         Exact.validate_block q p = Exact.Ok true.

(** The two UTF-16 surrogates of a code point above U+FFFF, as a string
    of two code points *)
Definition surrogate_pair (c : N) : Exact.pystr :=
  [(0xD800 + ((c - 0x10000) / 0x400) mod 0x400)%N;
   (0xDC00 + (c - 0x10000) mod 0x400)%N].

Definition set_data (d : Exact.pystr) (b : Exact.Block) : Exact.Block :=
  Exact.mkBlock (Exact.index b) (Exact.timestamp b) d (Exact.proof b)
    (Exact.previous_hash b).

(** The bytes that [_hash] digests *)
Definition hashed_bytes (block : Exact.Block) : Exact.result (list byte) :=
  Exact.bind (Exact.json_dumps block) Exact.encode.

(** A block of the class above as a block of [Exact] *)
Definition lift (b : Block) : Exact.Block :=
  Exact.mkBlock (index b) (Exact.of_ascii (timestamp b))
    (Exact.of_ascii (data b)) (proof b) (Exact.of_ascii (previous_hash b)).

(** ** A concrete ledger with data outside ASCII

    The data of [u1] is "alice", U+2192, "bob ", U+1F600, " 19648",
    U+20AC: code points of one, three and four bytes in UTF-8. *)

Module ExactSample.

Definition t0 : Exact.pystr := Exact.of_ascii Sample.t0.
Definition t1 : Exact.pystr := Exact.of_ascii Sample.t1.
Definition t2 : Exact.pystr := Exact.of_ascii Sample.t2.

Definition d1 : Exact.pystr :=
  (Exact.of_ascii "alice" ++ [0x2192%N] ++ Exact.of_ascii "bob "
   ++ [0x1F600%N] ++ Exact.of_ascii " 19648" ++ [0x20AC%N])%list.
Definition d2 : Exact.pystr := Exact.of_ascii "bob->carol:69".

Definition g0 : Exact.Block := lift Sample.g0.
Definition u1 : Exact.Block :=
  Exact.mkBlock 2 t1 d1 4
    (Exact.of_ascii
       "9887cc81decc31e65b6dfddda4d05c2390fce914fa384075c6648da5d1935575").
Definition u2 : Exact.Block :=
  Exact.mkBlock 3 t2 d2 9
    (Exact.of_ascii
       "ad5fd8cade4b23d43271ccdc392600e1beae1ca184562a145ddb62110e9063ef").

Definition fresh : Exact.Blockchain := Exact.init t0.
Definition ledger1 : Exact.Blockchain := Exact.mkBlockchain [g0; u1] [].
Definition ledger2 : Exact.Blockchain := Exact.mkBlockchain [g0; u1; u2] [].


End ExactSample.



(** ** SHA-256 test vectors and the shape of the digest *)

Example sha256_abc :
  SHA256.hexdigest (encode "abc")
  = "ba7816bf8f01cfea414140de5dae2223b00361a396177a9cb410ff61f20015ad".
Proof. vm_compute. reflexivity. Qed.

Example sha256_empty :
  SHA256.hexdigest []
  = "e3b0c44298fc1c149afbf4c8996fb92427ae41e4649b934ca495991b7852b855".
Proof. vm_compute. reflexivity. Qed.

Example sha256_two_blocks :
  SHA256.hexdigest
    (encode "abcdbcdecdefdefgefghfghighijhijkijkljklmklmnlmnomnopnopq")
  = "248d6a61d20638b8e5c026930c3e6039a33ce45964ff2167f6ecedd419db06c1".
Proof. vm_compute. reflexivity. Qed.

Example hash_genesis :
  _hash Sample.g0
  = "9887cc81decc31e65b6dfddda4d05c2390fce914fa384075c6648da5d1935575".
Proof. vm_compute. reflexivity. Qed.

Lemma encode_app (s1 s2 : string) :
  encode (s1 ++ s2) = (encode s1 ++ encode s2)%list.
Proof.
  induction s1 as [|c s1 IH]; [reflexivity|].
  cbn [append encode]. rewrite IH, app_assoc. reflexivity.
Qed.

Lemma hash_operation_spec (new_proof previous_proof index : Z) (data : string) :
  hash_operation new_proof previous_proof index data
  = spec_digest new_proof previous_proof index data.
Proof.
  unfold hash_operation, _to_digest, spec_digest. rewrite encode_app.
  reflexivity.
Qed.

(** The digests are never unfolded in the general proofs. *)
#[local] Opaque hash_operation _hash.

Local Open Scope list_scope.

(** ** The search of [_proof_of_work] *)

Section ProofOfWork.

Variables (previous_proof index : Z) (data : string).

Local Abbreviation W p := (work_condition p previous_proof index data).
Local Abbreviation loop fuel start :=
  (_proof_of_work_loop fuel start previous_proof index data).

Lemma loop_unfold (fuel : nat) (start : Z) :
  loop (S fuel) start = if W start then Ok start else loop fuel (start + 1)%Z.
Proof. reflexivity. Qed.

Lemma loop_sound (fuel : nat) : forall (start p : Z),
  loop fuel start = Ok p ->
  (start <= p < start + Z.of_nat fuel)%Z /\ W p = true
  /\ forall q : Z, (start <= q < p)%Z -> W q = false.
Proof.
  induction fuel as [|fuel IH]; intros start p H; [discriminate|].
  rewrite loop_unfold in H. destruct (W start) eqn:Hs.
  - injection H as <-. repeat split; try lia. assumption.
  - apply IH in H as (Hr & Hp & Hq). repeat split; try lia; [assumption|].
    intros q Hq'. destruct (Z.eq_dec q start) as [->|Hne]; [assumption|].
    apply Hq. lia.
Qed.

Lemma loop_never_raises (fuel : nat) : forall (start : Z) (e : exn),
  loop fuel start <> Raise e.
Proof.
  induction fuel as [|fuel IH]; intros start e; [discriminate|].
  rewrite loop_unfold. destruct (W start); [discriminate|apply IH].
Qed.

Lemma loop_complete (n : nat) : forall (start : Z),
  W (start + Z.of_nat n)%Z = true ->
  exists p : Z, loop (S n) start = Ok p.
Proof.
  induction n as [|n IH]; intros start H; rewrite loop_unfold.
  - replace (start + Z.of_nat 0)%Z with start in H by lia. rewrite H. eauto.
  - destruct (W start); [eauto|]. apply IH.
    replace (start + 1 + Z.of_nat n)%Z with (start + Z.of_nat (S n))%Z by lia.
    assumption.
Qed.

Lemma loop_more_fuel (fuel : nat) : forall (start p : Z) (fuel' : nat),
  loop fuel start = Ok p -> fuel <= fuel' -> loop fuel' start = Ok p.
Proof.
  induction fuel as [|fuel IH]; intros start p fuel' H Hle; [discriminate|].
  destruct fuel' as [|fuel']; [lia|]. rewrite loop_unfold in *.
  destruct (W start); [assumption|]. apply IH with (1 := H). lia.
Qed.

Lemma proof_of_work_least (fuel : nat) (p : Z) :
  _proof_of_work fuel previous_proof index data = Ok p ->
  least_proof previous_proof index data p.
Proof.
  intros H. apply loop_sound in H as (Hr & Hp & Hq).
  split; [lia|]. split; assumption.
Qed.

Lemma least_proof_unique (p p' : Z) :
  least_proof previous_proof index data p ->
  least_proof previous_proof index data p' -> p = p'.
Proof.
  intros (H1 & Hp & Hq) (H1' & Hp' & Hq').
  destruct (Z.lt_trichotomy p p') as [Hlt|[Heq|Hgt]]; [|assumption|].
  - rewrite Hq' in Hp by lia. discriminate.
  - rewrite Hq in Hp' by lia. discriminate.
Qed.

Lemma proof_of_work_terminates (q : Z) :
  (1 <= q)%Z -> work_condition q previous_proof index data = true ->
  exists p : Z,
    _proof_of_work (Z.to_nat q) previous_proof index data = Ok p.
Proof.
  intros Hq Hw. destruct (Z.to_nat q) as [|n] eqn:Hn; [lia|].
  apply loop_complete. replace (1 + Z.of_nat n)%Z with q by lia. assumption.
Qed.

Lemma proof_of_work_of_least (fuel : nat) (p p' : Z) :
  least_proof previous_proof index data p ->
  _proof_of_work fuel previous_proof index data = Ok p' -> p' = p.
Proof.
  intros Hl H. apply proof_of_work_least in H.
  eapply least_proof_unique; eassumption.
Qed.

End ProofOfWork.

(** ** Validation *)

Section Validation.

Lemma validate_block_true (cur prev : Block) :
  validate_block cur prev = true <->
  previous_hash cur = _hash prev
  /\ work_condition (proof cur) (proof prev) (index cur) (data cur) = true.
Proof.
  unfold validate_block, work_condition.
  destruct (String.eqb_spec (previous_hash cur) (_hash prev)) as [He|Hne];
    cbn [negb].
  - destruct (String.eqb _ "0000"); cbn [negb]; intuition congruence.
  - intuition congruence.
Qed.

Lemma is_chain_valid_loop_spec (rest : list Block) :
  forall (pre : list Block) (prev : Block),
    is_chain_valid_loop (pre ++ prev :: rest)
      (seq (S (length pre)) (length rest))
    = Ok (links_ok prev rest).
Proof.
  induction rest as [|cur rest IH]; intros pre prev; [reflexivity|].
  cbn [length seq is_chain_valid_loop links_ok]. unfold getitem.
  replace (S (length pre) - 1) with (length pre) by lia.
  rewrite (list_lookup_middle pre (cur :: rest) prev (length pre) eq_refl).
  replace (pre ++ prev :: cur :: rest) with ((pre ++ [prev]) ++ cur :: rest)
    by (rewrite <- app_assoc; reflexivity).
  rewrite (list_lookup_middle (pre ++ [prev]) rest cur (S (length pre)))
    by (rewrite length_app; cbn; lia).
  cbn [bind]. destruct (validate_block cur prev); cbn [negb andb];
    [|reflexivity].
  specialize (IH (pre ++ [prev]) cur).
  rewrite length_app in IH. cbn [length] in IH.
  replace (length pre + 1) with (S (length pre)) in IH by lia. exact IH.
Qed.

Lemma is_chain_valid_spec (self : Blockchain) :
  is_chain_valid self = Ok (chain_ok (chain self)).
Proof.
  unfold is_chain_valid, range. destruct (chain self) as [|first rest];
    [reflexivity|].
  cbn [length chain_ok]. replace (S (length rest) - 1) with (length rest) by lia.
  exact (is_chain_valid_loop_spec rest [] first).
Qed.

Lemma links_ok_valid_links (rest : list Block) : forall prev : Block,
  links_ok prev rest = true <-> valid_links (prev :: rest).
Proof.
  induction rest as [|cur rest IH]; intros prev; cbn [links_ok].
  - split; [|reflexivity]. intros _ i p c Hp Hc. destruct i; discriminate.
  - rewrite andb_true_iff, IH. split.
    + intros [Hv Hl] [|i] p c Hp Hc.
      * injection Hp as <-. injection Hc as <-. exact Hv.
      * exact (Hl i p c Hp Hc).
    + intros H. split; [exact (H 0 prev cur eq_refl eq_refl)|].
      intros i p c Hp Hc. exact (H (S i) p c Hp Hc).
Qed.

Lemma chain_ok_valid_links (c : list Block) :
  chain_ok c = true <-> valid_links c.
Proof.
  destruct c as [|first rest]; [|apply links_ok_valid_links].
  split; [|reflexivity]. intros _ i p c Hp. discriminate.
Qed.

Lemma is_chain_valid_true (self : Blockchain) :
  is_chain_valid self = Ok true <-> valid_links (chain self).
Proof.
  rewrite is_chain_valid_spec, <- chain_ok_valid_links.
  split; [intros H; injection H as ->; reflexivity | intros ->; reflexivity].
Qed.

Lemma is_chain_valid_false (self : Blockchain) :
  is_chain_valid self = Ok false <-> ~ valid_links (chain self).
Proof.
  rewrite <- is_chain_valid_true, is_chain_valid_spec.
  destruct (chain_ok (chain self)); split; intros H; congruence.
Qed.

Lemma valid_links_app (c : list Block) (b : Block) :
  valid_links c ->
  (forall l : Block, last c = Some l -> validate_block b l = true) ->
  valid_links (c ++ [b]).
Proof.
  intros Hc Hb i p q Hp Hq.
  destruct (Nat.lt_ge_cases (S i) (length c)) as [Hlt|Hge].
  - rewrite lookup_app_l in Hp by lia. rewrite lookup_app_l in Hq by lia.
    exact (Hc i p q Hp Hq).
  - assert (S i = length c) as Hi.
    { apply lookup_lt_Some in Hq. rewrite length_app in Hq. cbn in Hq. lia. }
    rewrite lookup_app_l in Hp by lia.
    rewrite lookup_app_r in Hq by lia.
    replace (S i - length c) with 0 in Hq by lia. injection Hq as <-.
    apply Hb. rewrite last_lookup. rewrite <- Hi. exact Hp.
Qed.

End Validation.

(** ** Mining *)

Section Mining.

Lemma mine_block_inv (fuel : nat) (now data : string)
    (self self' : Blockchain) (block : Block) :
  mine_block fuel now data self = Ok (block, self') ->
  exists (old_last : Block) (p : Z),
    last (chain self) = Some old_last
    /\ _proof_of_work fuel (proof old_last)
         (Z.of_nat (length (chain self)) + 1) data = Ok p
    /\ block = mkBlock (Z.of_nat (length (chain self)) + 1) now data p
                       (_hash old_last)
    /\ self' = mkBlockchain (chain self ++ [block]) (stdout self).
Proof.
  unfold mine_block, get_previous_block. intros H.
  destruct (last (chain self)) as [old_last|]; [|discriminate].
  cbn [bind] in H.
  destruct (_proof_of_work fuel _ _ data) as [p| |] eqn:Hp; try discriminate.
  cbn [bind] in H. injection H as <- <-. exists old_last, p.
  repeat split; assumption.
Qed.


End Mining.

(** ** Deletion *)

Section Deletion.

Lemma block_eqb_eq (b1 b2 : Block) : block_eqb b1 b2 = true <-> b1 = b2.
Proof.
  destruct b1, b2. unfold block_eqb. cbn.
  rewrite !andb_true_iff, !Z.eqb_eq, !String.eqb_eq. split.
  - intros [[[[-> ->] ->] ->] ->]. reflexivity.
  - intros H. injection H as -> -> -> -> ->. repeat split.
Qed.

(** The block that the scan finds is the one [list.remove] drops. *)
Lemma find_block_remove (p : Z) (c : list Block) : forall b : Block,
  find_block p c = Some b ->
  exists k : nat,
    c !! k = Some b /\ proof b = p
    /\ (forall (j : nat) (b' : Block), j < k -> c !! j = Some b' -> proof b' <> p)
    /\ list_remove b c = Ok (delete k c).
Proof.
  induction c as [|y c IH]; intros b H; [discriminate|].
  cbn [find_block] in H. destruct (Z.eqb_spec (proof y) p) as [Hy|Hy].
  - injection H as <-. exists 0. split; [reflexivity|]. split; [assumption|].
    split; [intros; lia|]. cbn [list_remove].
    rewrite (proj2 (block_eqb_eq y y) eq_refl). reflexivity.
  - destruct (IH b H) as (k & Hk & Hp & Hj & Hr). exists (S k).
    split; [exact Hk|]. split; [exact Hp|]. split.
    + intros [|j] b' Hlt Hb'.
      * injection Hb' as <-. assumption.
      * apply (Hj j b'); [lia|exact Hb'].
    + cbn [list_remove]. destruct (block_eqb y b) eqn:E.
      * apply block_eqb_eq in E. subst. contradiction.
      * rewrite Hr. reflexivity.
Qed.

Lemma find_block_none (p : Z) (c : list Block) :
  Forall (fun b => proof b <> p) c -> find_block p c = None.
Proof.
  induction 1 as [|y c Hy _ IH]; [reflexivity|]. cbn [find_block].
  destruct (Z.eqb_spec (proof y) p); [contradiction|exact IH].
Qed.

Lemma range_down_S (m : nat) : range_down (S m) 0 = S m :: range_down m 0.
Proof.
  unfold range_down. rewrite !Nat.sub_0_r, seq_S, rev_unit. reflexivity.
Qed.

Lemma range_down_length (n : nat) : length (range_down n 0) = n.
Proof.
  unfold range_down. rewrite length_rev, length_seq. lia.
Qed.

Lemma range_down_length_eq (n m : nat) :
  n = m -> length (range_down n 0) = m.
Proof. intros <-. apply range_down_length. Qed.

(** The loop walks from the tail to position 1, and reads the block at
    [i - 1] before the iteration that rewrites it: each block is sealed
    again against its predecessor as it was before the loop. *)
Lemma repair_loop_spec (fuel : nat) (n : nat) : forall A B : list Block,
  repair_loop fuel A (range_down n 0) = Ok B ->
  length B = length A
  /\ (forall i : nat, n < i -> B !! i = A !! i)
  /\ B !! 0 = A !! 0
  /\ (forall (i : nat) (prev cur : Block),
         i < n -> A !! i = Some prev -> A !! S i = Some cur ->
         exists p : Z,
           _proof_of_work fuel (proof prev) (index cur) (data cur) = Ok p
           /\ B !! S i = Some (mkBlock (index cur) (timestamp cur) (data cur)
                                       p (_hash prev))).
Proof.
  induction n as [|n IH]; intros A B H.
  - injection H as <-. repeat split; intros; lia.
  - rewrite range_down_S in H. cbn [repair_loop] in H. unfold getitem in H.
    replace (S n - 1) with n in H by lia.
    destruct (A !! S n) as [cur|] eqn:Hc; [|discriminate].
    destruct (A !! n) as [prev|] eqn:Hp; [|discriminate].
    cbn [bind set_previous_hash index data] in H.
    destruct (_proof_of_work fuel (proof prev) (index cur) (data cur))
      as [p| |] eqn:Hw; try discriminate.
    cbn [bind] in H. apply IH in H as (Hlen & Hgt & H0 & Hmid).
    rewrite length_insert in Hlen. split; [exact Hlen|]. split; [|split].
    + intros i Hi. rewrite Hgt by lia. apply list_lookup_insert_ne. lia.
    + rewrite H0. apply list_lookup_insert_ne. lia.
    + intros i prev' cur' Hi Hp' Hc'. destruct (Nat.eq_dec i n) as [->|Hne].
      * rewrite Hp in Hp'. rewrite Hc in Hc'.
        injection Hp' as <-. injection Hc' as <-.
        exists p. split; [exact Hw|]. rewrite Hgt by lia.
        rewrite list_lookup_insert_eq by (apply lookup_lt_Some in Hc; exact Hc).
        reflexivity.
      * apply Hmid; [lia| |]; rewrite list_lookup_insert_ne by lia;
          assumption.
Qed.

Lemma delete_block_inv (fuel : nat) (p : Z) (self self' : Blockchain)
    (b : Block) :
  find_block p (chain self) = Some b ->
  delete_block fuel p self = Ok self' ->
  exists k : nat,
    chain self !! k = Some b /\ proof b = p
    /\ (forall (j : nat) (b' : Block),
           j < k -> chain self !! j = Some b' -> proof b' <> p)
    /\ repair_loop fuel (delete k (chain self))
         (range_down (length (delete k (chain self)) - 1) 0)
       = Ok (chain self')
    /\ stdout self' = stdout self ++ ["!FAILED!"].
Proof.
  intros Hf H. unfold delete_block in H. rewrite Hf in H.
  destruct (find_block_remove p (chain self) b Hf) as (k & Hk & Hp & Hj & Hr).
  rewrite Hr in H. cbn [bind] in H.
  destruct (repair_loop fuel _ _) as [c2| |] eqn:Hl; try discriminate.
  cbn [bind] in H. injection H as <-. exists k. repeat split; assumption.
Qed.

End Deletion.

(** ** Sequences of calls *)

Section Calls.

Variables (allowed : call -> bool) (Inv : Blockchain -> Prop).

Hypothesis preserved : forall (c : call) (s s' : Blockchain),
  allowed c = true -> Inv s -> run_call c s = Ok s' -> Inv s'.

Lemma run_calls_invariant (cs : list call) : forall s s' : Blockchain,
  forallb allowed cs = true -> Inv s -> run_calls cs s = Ok s' -> Inv s'.
Proof.
  induction cs as [|c cs IH]; intros s s' Ha Hs H.
  - injection H as <-. exact Hs.
  - cbn [forallb] in Ha. apply andb_true_iff in Ha as [Hc Hcs].
    cbn [run_calls] in H. destruct (run_call c s) as [s1| |] eqn:H1;
      try discriminate.
    cbn [bind] in H. apply (IH s1 s' Hcs); [|exact H].
    exact (preserved c s s1 Hc Hs H1).
Qed.

End Calls.

(** ** Invariants of the calls *)

Section Invariants.

Lemma run_call_mine (fuel : nat) (now data : string) (s s' : Blockchain) :
  run_call (MineBlock fuel now data) s = Ok s' ->
  exists block : Block, mine_block fuel now data s = Ok (block, s').
Proof.
  cbn [run_call]. destruct (mine_block fuel now data s) as [[block s1]| |];
    try discriminate.
  cbn [bind snd]. intros H. injection H as <-. exists block. reflexivity.
Qed.

(** What [delete_block] leaves when it returns: the ledger itself, or
    the chain without the block at some position [k], repaired. *)
Lemma delete_block_cases (fuel : nat) (p : Z) (s s' : Blockchain) :
  delete_block fuel p s = Ok s' ->
  s' = s
  \/ exists (k : nat) (b : Block),
       chain s !! k = Some b /\ proof b = p
       /\ repair_loop fuel (delete k (chain s))
            (range_down (length (delete k (chain s)) - 1) 0)
          = Ok (chain s').
Proof.
  intros H. destruct (find_block p (chain s)) as [b|] eqn:Hf.
  - right. destruct (delete_block_inv fuel p s s' b Hf H)
      as (k & Hk & Hp & _ & Hr & _).
    exists k, b. repeat split; assumption.
  - left. unfold delete_block in H. rewrite Hf in H. injection H as <-.
    reflexivity.
Qed.

Lemma run_call_genesis (now0 : string) (c : call) (s s' : Blockchain) :
  spares_genesis c = true ->
  chain s !! 0 = Some (genesis_block now0) ->
  run_call c s = Ok s' ->
  chain s' !! 0 = Some (genesis_block now0).
Proof.
  intros Hc Hs H. destruct c as [fuel now data|fuel p|].
  - apply run_call_mine in H as [block H].
    apply mine_block_inv in H as (_ & _ & _ & _ & _ & ->). cbn [chain].
    apply lookup_app_l_Some. exact Hs.
  - cbn [run_call] in H. apply delete_block_cases in H
      as [->|(k & b & Hk & Hp & Hr)]; [exact Hs|].
    apply repair_loop_spec in Hr as (_ & _ & H0 & _). rewrite H0.
    destruct k as [|k].
    + rewrite Hs in Hk. injection Hk as <-. cbn in Hp. subst p.
      discriminate.
    + rewrite list_lookup_delete_lt by lia. exact Hs.
  - cbn [run_call] in H. unfold clear, getitem in H. rewrite Hs in H.
    cbn [bind] in H. injection H as <-. reflexivity.
Qed.

Lemma genesis_kept (now0 : string) (cs : list call) (s : Blockchain) :
  forallb spares_genesis cs = true ->
  run_calls cs (init now0) = Ok s ->
  chain s !! 0 = Some (genesis_block now0).
Proof.
  intros Ha H.
  apply (run_calls_invariant spares_genesis
           (fun s => chain s !! 0 = Some (genesis_block now0))
           (run_call_genesis now0) cs (init now0) s Ha); [reflexivity|exact H].
Qed.


Lemma map_fmap {A B : Type} (f : A -> B) (l : list A) : map f l = f <$> l.
Proof. induction l as [|x l IH]; [reflexivity|]. cbn. rewrite IH. reflexivity. Qed.




(** A chain built by [mine_block] and [clear] alone is sealed. *)
Lemma run_call_sealed (c : call) (s s' : Blockchain) :
  negb (is_delete c) = true ->
  sealed_below (length (chain s)) (chain s) ->
  run_call c s = Ok s' ->
  sealed_below (length (chain s')) (chain s').
Proof.
  intros Hc Hs H. destruct c as [fuel now data|fuel p|]; [|discriminate|].
  - apply run_call_mine in H as [block H].
    apply mine_block_inv in H as (old & p & Hl & Hp & Hb & ->). cbn [chain].
    intros i prev cur Hi Hprev Hcur. rewrite length_app in Hi. cbn in Hi.
    rewrite lookup_app_l in Hprev by lia.
    destruct (Nat.eq_dec (S i) (length (chain s))) as [E|E].
    + rewrite lookup_app_r in Hcur by lia.
      replace (S i - length (chain s)) with 0 in Hcur by lia.
      injection Hcur as <-. rewrite last_lookup, <- E in Hl. cbn in Hl.
      rewrite Hprev in Hl. injection Hl as <-. rewrite Hb. split; cbn.
      * reflexivity.
      * exact (proof_of_work_least _ _ _ _ _ Hp).
    + rewrite lookup_app_l in Hcur by lia.
      apply (Hs i prev cur); [lia|exact Hprev|exact Hcur].
  - cbn [run_call] in H. unfold clear, getitem in H.
    destruct (chain s !! 0) as [g|]; [|discriminate].
    cbn [bind] in H. injection H as <-. intros i prev cur Hi. cbn in Hi. lia.
Qed.

Lemma mined_chain_sealed (now0 : string) (cs : list call) (s : Blockchain) :
  forallb (fun c => negb (is_delete c)) cs = true ->
  run_calls cs (init now0) = Ok s ->
  sealed_below (length (chain s)) (chain s).
Proof.
  intros Ha H.
  apply (run_calls_invariant (fun c => negb (is_delete c))
           (fun s => sealed_below (length (chain s)) (chain s))
           run_call_sealed cs (init now0) s Ha); [|exact H].
  intros i prev cur Hi. cbn in Hi. lia.
Qed.

(** The scan of [delete_block] is the only call that can take the first
    block away, and only for the proof 1. *)
Lemma clear_keeps_genesis (now0 : string) (cs : list call) (s : Blockchain) :
  forallb spares_genesis cs = true ->
  run_calls cs (init now0) = Ok s ->
  clear s = Ok (mkBlockchain [genesis_block now0] (stdout s)).
Proof.
  intros Ha H. unfold clear, getitem.
  rewrite (genesis_kept now0 cs s Ha H). reflexivity.
Qed.

(** What the repair makes of the chain [A] left by the removal: each
    block after the first is sealed against the block before it in [A]. *)
Lemma repair_loop_reseals (fuel : nat) (A B : list Block) :
  repair_loop fuel A (range_down (length A - 1) 0) = Ok B ->
  forall (i : nat) (prev cur : Block),
    A !! i = Some prev -> A !! S i = Some cur ->
    exists new : Block, B !! S i = Some new /\ resealed prev cur new.
Proof.
  intros H i prev cur Hp Hc.
  apply repair_loop_spec in H as (_ & _ & _ & Hmid).
  assert (i < length A - 1) as Hi by (apply lookup_lt_Some in Hc; lia).
  destruct (Hmid i prev cur Hi Hp Hc) as (q & Hq & Hn).
  eexists. split; [exact Hn|]. unfold resealed. cbn.
  repeat split; try reflexivity; apply (proof_of_work_least _ _ _ _ _ Hq).
Qed.

End Invariants.

(** ** Properties of the operations *)

(** C9. When no block of the chain has the given proof, [delete_block]
    returns normally, with any fuel, and the ledger it leaves is the
    ledger it was given: same blocks, same fields, same order, and
    nothing printed. *)
Theorem delete_block_absent_proof (fuel : nat) (p : Z) (self : Blockchain) :
  Forall (fun b => proof b <> p) (chain self) ->
  delete_block fuel p self = Ok self.
Proof.
  intros H. unfold delete_block. rewrite (find_block_none p _ H). reflexivity.
Qed.

Lemma delete_block_absent_proof_witness :
  Forall (fun b => proof b <> 5%Z) (chain (init Sample.t0))
  /\ delete_block 0 5 (init Sample.t0) = Ok (init Sample.t0).
Proof.
  assert (Forall (fun b => proof b <> 5%Z) (chain (init Sample.t0))) as H.
  { repeat constructor. cbn. lia. }
  split; [exact H|]. apply (delete_block_absent_proof 0 5 (init Sample.t0) H).
Defined.






(** C2, evaluated on failing inputs. [delete_block(1)] on a fresh ledger
    finds the genesis block, whose proof is 1, removes it and leaves an
    empty chain; after one [mine_block] it leaves the mined block first. *)
Theorem delete_block_removes_genesis :
  find_block 1 (chain (init Sample.t0)) = Some (genesis_block Sample.t0)
  /\ run_calls [DeleteBlock 0 1] (init Sample.t0)
     = Ok (mkBlockchain [] ["!FAILED!"])
  /\ run_calls [MineBlock 7 Sample.t1 Sample.d1; DeleteBlock 0 1]
       (init Sample.t0)
     = Ok (mkBlockchain [Sample.b1] ["!FAILED!"])
  /\ Sample.b1 <> genesis_block Sample.t0.
Proof.
  split; [reflexivity|]. split; [vm_compute; reflexivity|].
  split; [vm_compute; reflexivity|]. discriminate.
Qed.

(** C8, evaluated on failing inputs. After two [mine_block] calls,
    [delete_block(1)] and [clear], the only block of the chain is the
    first mined block, not the genesis block; and [clear] on the chain
    that [delete_block(1)] has emptied raises [IndexError]. *)
Theorem clear_after_genesis_removed :
  run_calls [MineBlock 7 Sample.t1 Sample.d1; MineBlock 8 Sample.t2 Sample.d2;
             DeleteBlock 8 1]
    (init Sample.t0)
  = Ok (mkBlockchain [Sample.b1; Sample.b2] ["!FAILED!"])
  /\ clear (mkBlockchain [Sample.b1; Sample.b2] ["!FAILED!"])
     = Ok (mkBlockchain [Sample.b1] ["!FAILED!"])
  /\ Sample.b1 <> genesis_block Sample.t0
  /\ run_calls [DeleteBlock 0 1; Clear] (init Sample.t0) = Raise IndexError.
Proof.
  split; [vm_compute; reflexivity|]. split; [reflexivity|].
  split; [discriminate|]. vm_compute; reflexivity.
Qed.

(** ** Indices across a sequence of calls *)








(** ** The frame of the repair *)

Lemma range_down_explicit (n : nat) : range_down n 0 = rev (seq 1 n).
Proof. unfold range_down. rewrite Nat.sub_0_r. reflexivity. Qed.

(** A block that the repair sealed again is the block it was exactly when
    it was sealed already. *)
Lemma resealed_same (prev cur new : Block) :
  resealed prev cur new -> (new = cur <-> sealed prev cur).
Proof.
  intros (Ei & Et & Ed & Eh & El). split.
  - intros ->. split; assumption.
  - intros [Hh Hl]. pose proof (least_proof_unique _ _ _ _ _ El Hl) as Ep.
    destruct new, cur. cbn in *. congruence.
Qed.

(** C3, amended. When [delete_block] removes the block at position [k],
    one block less remains, and the repair loop makes one iteration for
    each remaining position from the last down to 1, whatever [k] is. It
    never modifies the first block, nor the index, timestamp or data of
    any block: each remaining block after the first is sealed again,
    against the block before it as it was before the loop. So a surviving
    block before position [k] keeps its previous hash and proof exactly
    when it was sealed against the block before it; no surviving block is
    modified exactly when every remaining block was sealed against the
    block now before it; and when the removed block was the last one,
    exactly when every surviving block was sealed. *)
Theorem delete_block_frame (fuel : nat) (p : Z) (self self' : Blockchain)
    (b : Block) :
  find_block p (chain self) = Some b ->
  delete_block fuel p self = Ok self' ->
  exists k : nat,
    chain self !! k = Some b
    /\ length (chain self') = length (chain self) - 1
    /\ repair_loop fuel (delete k (chain self))
         (rev (seq 1 (length (chain self') - 1)))
       = Ok (chain self')
    /\ chain self' !! 0 = delete k (chain self) !! 0
    /\ (forall (i : nat) (cur : Block),
           delete k (chain self) !! i = Some cur ->
           exists new : Block,
             chain self' !! i = Some new /\ index new = index cur
             /\ timestamp new = timestamp cur /\ data new = data cur)
    /\ (forall (i : nat) (prev cur : Block),
           delete k (chain self) !! i = Some prev ->
           delete k (chain self) !! S i = Some cur ->
           exists new : Block,
             chain self' !! S i = Some new /\ resealed prev cur new)
    /\ (0 < k -> chain self' !! 0 = chain self !! 0)
    /\ (forall (i : nat) (prev cur : Block),
           S i < k ->
           chain self !! i = Some prev -> chain self !! S i = Some cur ->
           (chain self' !! S i = Some cur <-> sealed prev cur))
    /\ (chain self' = delete k (chain self) <->
        sealed_below (length (chain self) - 1) (delete k (chain self)))
    /\ (S k = length (chain self) ->
        (chain self' = delete k (chain self) <->
         sealed_below k (chain self))).
Proof.
  intros Hf H.
  destruct (delete_block_inv fuel p self self' b Hf H)
    as (k & Hk & _ & _ & Hr & _).
  exists k. split; [exact Hk|].
  pose proof (repair_loop_reseals _ _ _ Hr) as Hre.
  pose proof Hr as Hloop.
  apply repair_loop_spec in Hr as (Hlen & _ & H0 & _).
  assert (k < length (chain self)) as Hklt
    by (apply lookup_lt_Some in Hk; exact Hk).
  assert (length (delete k (chain self)) = length (chain self) - 1) as Hd
    by (apply length_delete; rewrite Hk; eauto).
  split; [lia|]. split.
  { rewrite <- range_down_explicit, Hlen. exact Hloop. }
  split; [exact H0|].
  assert (chain self' = delete k (chain self) <->
          sealed_below (length (chain self) - 1) (delete k (chain self)))
    as Hall.
  { split.
    - intros E i prev cur _ Hp Hc.
      destruct (Hre i prev cur Hp Hc) as (new & Hn & Hx).
      apply (resealed_same _ _ _ Hx). rewrite E, Hc in Hn. congruence.
    - intros Hs. apply list_eq. intros [|i]; [exact H0|].
      destruct (delete k (chain self) !! S i) as [cur|] eqn:Hc.
      + assert (S i < length (delete k (chain self))) as Hi
          by (apply lookup_lt_Some in Hc; exact Hc).
        destruct (lookup_lt_is_Some_2 (delete k (chain self)) i)
          as [prev Hp]; [lia|].
        destruct (Hre i prev cur Hp Hc) as (new & Hn & Hx).
        rewrite Hn. f_equal. apply (resealed_same _ _ _ Hx).
        apply (Hs i prev cur); [lia|exact Hp|exact Hc].
      + apply lookup_ge_None in Hc. apply lookup_ge_None. lia. }
  split; [|split; [exact Hre|split; [|split; [|split; [exact Hall|]]]]].
  - intros [|i] cur Hc.
    + exists cur. rewrite H0. repeat split. exact Hc.
    + assert (S i < length (delete k (chain self))) as Hi
        by (apply lookup_lt_Some in Hc; exact Hc).
      destruct (lookup_lt_is_Some_2 (delete k (chain self)) i) as [prev Hp];
        [lia|].
      destruct (Hre i prev cur Hp Hc) as (new & Hn & Ei & Et & Ed & _).
      exists new. repeat split; assumption.
  - intros Hpos. rewrite H0. apply list_lookup_delete_lt. exact Hpos.
  - intros i prev cur Hi Hp Hc.
    destruct (Hre i prev cur) as (new & Hn & Hx).
    + rewrite list_lookup_delete_lt by lia. exact Hp.
    + rewrite list_lookup_delete_lt by lia. exact Hc.
    + rewrite Hn, <- (resealed_same _ _ _ Hx). split; congruence.
  - intros Hlast. rewrite Hall. split.
    + intros Hs i prev cur Hi Hp Hc. apply (Hs i prev cur); [lia| |].
      * rewrite list_lookup_delete_lt by lia. exact Hp.
      * rewrite list_lookup_delete_lt by lia. exact Hc.
    + intros Hs i prev cur Hi Hp Hc.
      rewrite list_lookup_delete_lt in Hp by lia.
      rewrite list_lookup_delete_lt in Hc by lia.
      apply (Hs i prev cur); [lia|exact Hp|exact Hc].
Qed.

Lemma delete_block_frame_witness :
  find_block 13 [Sample.g0; Sample.b1; Sample.b2; Sample.b3] = Some Sample.b3
  /\ delete_block Sample.fuel 13
       (mkBlockchain [Sample.g0; Sample.b1; Sample.b2; Sample.b3] [])
     = Ok (mkBlockchain [Sample.g0; Sample.b1; Sample.b2] ["!FAILED!"])
  /\ exists k : nat,
       [Sample.g0; Sample.b1; Sample.b2; Sample.b3] !! k = Some Sample.b3
       /\ repair_loop Sample.fuel
            (delete k [Sample.g0; Sample.b1; Sample.b2; Sample.b3]) [2; 1]
          = Ok [Sample.g0; Sample.b1; Sample.b2].
Proof.
  assert (delete_block Sample.fuel 13
            (mkBlockchain [Sample.g0; Sample.b1; Sample.b2; Sample.b3] [])
          = Ok (mkBlockchain [Sample.g0; Sample.b1; Sample.b2] ["!FAILED!"]))
    as H by (vm_compute; reflexivity).
  split; [reflexivity|]. split; [exact H|].
  destruct (delete_block_frame Sample.fuel 13
              (mkBlockchain [Sample.g0; Sample.b1; Sample.b2; Sample.b3] [])
              (mkBlockchain [Sample.g0; Sample.b1; Sample.b2] ["!FAILED!"])
              Sample.b3 eq_refl H)
    as (k & Hk & _ & Hloop & _).
  exists k. split; [exact Hk|exact Hloop].
Defined.

(** Against C3 as stated: on the ledger left by four [mine_block] calls
    and the deletion of the first mined block, [delete_block] with the
    proof of the last block removes that last block, and the repair gives
    the block at position 2, before the removal point, another previous
    hash and another proof. *)
Lemma repair_rewrites_earlier_block :
  run_calls (Sample.mine4 ++ [DeleteBlock Sample.fuel 7]) (init Sample.t0)
  = Ok (mkBlockchain [Sample.g0; Sample.b2'; Sample.b3; Sample.b4] ["!FAILED!"])
  /\ find_block 2 [Sample.g0; Sample.b2'; Sample.b3; Sample.b4] = Some Sample.b4
  /\ delete_block Sample.fuel 2
       (mkBlockchain [Sample.g0; Sample.b2'; Sample.b3; Sample.b4] ["!FAILED!"])
     = Ok (mkBlockchain [Sample.g0; Sample.b2'; Sample.b3']
             ["!FAILED!"; "!FAILED!"])
  /\ previous_hash Sample.b3' <> previous_hash Sample.b3
  /\ proof Sample.b3' <> proof Sample.b3.
Proof.
  split; [vm_compute; reflexivity|]. split; [reflexivity|].
  split; [vm_compute; reflexivity|]. split; discriminate.
Qed.

(** C1, evaluated on a failing input. Three blocks are mined on a fresh
    ledger and the chain is accepted; [delete_block] with the proof of the
    first mined block removes that block and leaves three blocks, and
    [is_chain_valid] rejects the chain: the block at position 2 keeps the
    hash of its predecessor as it was before the loop repaired it. *)
Theorem delete_block_leaves_invalid_chain :
  run_calls Sample.mine3 (init Sample.t0)
  = Ok (mkBlockchain [Sample.g0; Sample.b1; Sample.b2; Sample.b3] [])
  /\ is_chain_valid (mkBlockchain [Sample.g0; Sample.b1; Sample.b2; Sample.b3] [])
     = Ok true
  /\ delete_block Sample.fuel (proof Sample.b1)
       (mkBlockchain [Sample.g0; Sample.b1; Sample.b2; Sample.b3] [])
     = Ok (mkBlockchain [Sample.g0; Sample.b2'; Sample.b3] ["!FAILED!"])
  /\ is_chain_valid (mkBlockchain [Sample.g0; Sample.b2'; Sample.b3] ["!FAILED!"])
     = Ok false
  /\ previous_hash Sample.b3 = _hash Sample.b2
  /\ previous_hash Sample.b3 <> _hash Sample.b2'.
Proof.
  split; [vm_compute; reflexivity|]. split; [vm_compute; reflexivity|].
  split; [vm_compute; reflexivity|]. split; [vm_compute; reflexivity|].
  split; [vm_compute; reflexivity|]. vm_compute. discriminate.
Qed.

(** ** Lemmas on the strings that are hashed *)

Lemma all_ascii_In (c : ascii) : In c all_ascii.
Proof.
  unfold all_ascii. rewrite <- (ascii_nat_embedding c). apply in_map.
  apply in_seq. pose proof (nat_ascii_bounded c). lia.
Qed.

Lemma forall_ascii (f : ascii -> bool) :
  forallb f all_ascii = true -> forall c : ascii, f c = true.
Proof.
  intros H c. rewrite forallb_forall in H. apply H. apply all_ascii_In.
Qed.

Lemma append_inv_head (s x y : string) :
  (s ++ x)%string = (s ++ y)%string -> x = y.
Proof.
  induction s as [|c s IH]; cbn; [trivial|]. intros H. injection H as H.
  exact (IH H).
Qed.

Lemma append_assoc (s1 s2 s3 : string) :
  ((s1 ++ s2) ++ s3)%string = (s1 ++ (s2 ++ s3))%string.
Proof.
  induction s1 as [|c s1 IH]; cbn; [reflexivity|]. rewrite IH. reflexivity.
Qed.

Lemma string_clash_app (s1 : string) : forall (s2 x y : string),
  string_clash s1 s2 = true -> (s1 ++ x)%string <> (s2 ++ y)%string.
Proof.
  induction s1 as [|c1 s1 IH]; intros [|c2 s2] x y H; try discriminate.
  cbn in *. intros E. injection E as Ec E.
  destruct (Ascii.eqb_spec c1 c2) as [_|Hne]; [|contradiction].
  exact (IH s2 x y H E).
Qed.

Lemma escape_clash_check :
  forallb (fun c1 =>
    forallb (fun c2 =>
      Ascii.eqb c1 c2
      || string_clash (json_escape_char c1) (json_escape_char c2))
      all_ascii) all_ascii = true.
Proof. vm_compute. reflexivity. Qed.

Lemma escape_head_check :
  forallb (fun c =>
    match json_escape_char c with
    | String h _ => negb (Ascii.eqb h dquote)
    | EmptyString => false
    end) all_ascii = true.
Proof. vm_compute. reflexivity. Qed.

Lemma json_escape_char_prefix (c1 c2 : ascii) (x y : string) :
  (json_escape_char c1 ++ x)%string = (json_escape_char c2 ++ y)%string ->
  c1 = c2 /\ x = y.
Proof.
  intros H. pose proof (forall_ascii _ (forall_ascii _ escape_clash_check c1) c2) as Hc.
  cbv beta in Hc. destruct (Ascii.eqb_spec c1 c2) as [->|Hne].
  - split; [reflexivity|]. exact (append_inv_head _ _ _ H).
  - cbn in Hc. exfalso. exact (string_clash_app _ _ _ _ Hc H).
Qed.

Lemma json_escape_char_head (c : ascii) (x r : string) :
  (json_escape_char c ++ x)%string <> String dquote r.
Proof.
  pose proof (forall_ascii _ escape_head_check c) as Hc. cbv beta in Hc.
  destruct (json_escape_char c) as [|h t]; [discriminate|].
  cbn. intros E. injection E as -> _. rewrite Ascii.eqb_refl in Hc. discriminate.
Qed.

Lemma json_escape_tail (s1 : string) : forall (s2 r1 r2 : string),
  (json_escape s1 ++ String dquote r1)%string
  = (json_escape s2 ++ String dquote r2)%string ->
  s1 = s2 /\ r1 = r2.
Proof.
  induction s1 as [|c1 s1 IH]; intros [|c2 s2] r1 r2 H; cbn [json_escape] in H.
  - cbn in H. injection H as ->. split; reflexivity.
  - cbn [append] in H. rewrite append_assoc in H. symmetry in H.
    exfalso. exact (json_escape_char_head _ _ _ H).
  - cbn [append] in H. rewrite append_assoc in H.
    exfalso. exact (json_escape_char_head _ _ _ H).
  - rewrite !append_assoc in H. apply json_escape_char_prefix in H as [-> H].
    apply IH in H as [-> ->]. split; reflexivity.
Qed.

Lemma json_str_tail (s1 s2 r1 r2 : string) :
  (json_str s1 ++ r1)%string = (json_str s2 ++ r2)%string ->
  s1 = s2 /\ r1 = r2.
Proof.
  unfold json_str. cbn [append]. intros H. injection H as H.
  rewrite !append_assoc in H. cbn [append] in H.
  exact (json_escape_tail _ _ _ _ H).
Qed.

Lemma split_at (c : ascii) (s1 : string) : forall (s2 r1 r2 : string),
  string_mem c s1 = false -> string_mem c s2 = false ->
  (s1 ++ String c r1)%string = (s2 ++ String c r2)%string ->
  s1 = s2 /\ r1 = r2.
Proof.
  induction s1 as [|x1 s1 IH]; intros [|x2 s2] r1 r2 H1 H2 H; cbn in *.
  - injection H as ->. split; reflexivity.
  - injection H as <- _. rewrite Ascii.eqb_refl in H2. discriminate.
  - injection H as -> _. rewrite Ascii.eqb_refl in H1. discriminate.
  - injection H as -> H. apply orb_false_iff in H1 as [_ H1].
    apply orb_false_iff in H2 as [_ H2].
    destruct (IH s2 r1 r2 H1 H2 H) as [-> ->]. split; reflexivity.
Qed.

Lemma uint_no_comma (d : Decimal.uint) :
  string_mem "," (NilEmpty.string_of_uint d) = false.
Proof. induction d; cbn; assumption || reflexivity. Qed.

Lemma str_of_int_no_comma (n : Z) : string_mem "," (str_of_int n) = false.
Proof.
  unfold str_of_int, NilZero.string_of_int, NilZero.string_of_uint.
  destruct (Z.to_int n) as [d|d]; destruct d; cbn; try reflexivity;
    apply uint_no_comma.
Qed.

Lemma to_int_nonnil (n : Z) :
  Z.to_int n <> Decimal.Pos Decimal.Nil /\ Z.to_int n <> Decimal.Neg Decimal.Nil.
Proof.
  destruct n as [|p|p]; cbn; split; try discriminate; intros H;
    injection H as H; exact (Unsigned.to_uint_nonnil p H).
Qed.

Lemma str_of_int_inj (n1 n2 : Z) : str_of_int n1 = str_of_int n2 -> n1 = n2.
Proof.
  unfold str_of_int. intros H. apply DecimalZ.to_int_inj.
  apply (f_equal NilZero.int_of_string) in H.
  destruct (to_int_nonnil n1) as [P1 N1]. destruct (to_int_nonnil n2) as [P2 N2].
  rewrite !NilZero.isi in H by assumption. injection H as H. exact H.
Qed.

Lemma str_of_int_tail (n1 n2 : Z) (r1 r2 : string) :
  (str_of_int n1 ++ String "," r1)%string
  = (str_of_int n2 ++ String "," r2)%string ->
  n1 = n2 /\ r1 = r2.
Proof.
  intros H.
  apply split_at in H as [H ->]; try apply str_of_int_no_comma.
  split; [exact (str_of_int_inj _ _ H)|reflexivity].
Qed.

Lemma str_of_int_sep (n1 n2 : Z) (r1 r2 : string) :
  (str_of_int n1 ++ (", " ++ r1))%string
  = (str_of_int n2 ++ (", " ++ r2))%string ->
  n1 = n2 /\ r1 = r2.
Proof.
  cbn [append]. intros H. apply str_of_int_tail in H as [-> H].
  injection H as ->. split; reflexivity.
Qed.

Lemma json_dumps_inj (b1 b2 : Block) : json_dumps b1 = json_dumps b2 -> b1 = b2.
Proof.
  unfold json_dumps. intros H.
  apply (append_inv_head "{") in H. apply append_inv_head in H.
  apply json_str_tail in H as [Hd H].
  apply (append_inv_head ", ") in H. apply append_inv_head in H.
  apply str_of_int_sep in H as [Hi H]. apply append_inv_head in H.
  apply json_str_tail in H as [Hh H].
  apply (append_inv_head ", ") in H. apply append_inv_head in H.
  apply str_of_int_sep in H as [Hp H]. apply append_inv_head in H.
  apply json_str_tail in H as [Ht _].
  destruct b1, b2. cbn in *. congruence.
Qed.

Lemma bytes_clash_app (l1 : list byte) : forall (l2 x y : list byte),
  bytes_clash l1 l2 = true -> l1 ++ x <> l2 ++ y.
Proof.
  induction l1 as [|a1 l1 IH]; intros [|a2 l2] x y H; try discriminate.
  cbn in *. intros E. injection E as Ea E.
  destruct (Byte.eqb a1 a2) eqn:Heq.
  - exact (IH l2 x y H E).
  - exact (Byte.eqb_false Heq Ea).
Qed.

Lemma encode_clash_check :
  forallb (fun c1 =>
    forallb (fun c2 =>
      Ascii.eqb c1 c2 || bytes_clash (encode_char c1) (encode_char c2))
      all_ascii) all_ascii = true.
Proof. vm_compute. reflexivity. Qed.

Lemma encode_char_prefix (c1 c2 : ascii) (x y : list byte) :
  encode_char c1 ++ x = encode_char c2 ++ y -> c1 = c2 /\ x = y.
Proof.
  intros H.
  pose proof (forall_ascii _ (forall_ascii _ encode_clash_check c1) c2) as Hc.
  cbv beta in Hc. destruct (Ascii.eqb_spec c1 c2) as [->|Hne].
  - split; [reflexivity|]. exact (app_inv_head _ _ _ H).
  - cbn in Hc. exfalso. exact (bytes_clash_app _ _ _ _ Hc H).
Qed.

Lemma encode_char_nonempty (c : ascii) : encode_char c <> [].
Proof. unfold encode_char. destruct (_ <? _)%nat; discriminate. Qed.

Lemma encode_inj (s1 : string) : forall s2 : string,
  encode s1 = encode s2 -> s1 = s2.
Proof.
  induction s1 as [|c1 s1 IH]; intros [|c2 s2] H; cbn [encode] in H.
  - reflexivity.
  - symmetry in H. apply app_eq_nil in H as [H _].
    exfalso. exact (encode_char_nonempty _ H).
  - apply app_eq_nil in H as [H _]. exfalso. exact (encode_char_nonempty _ H).
  - apply encode_char_prefix in H as [-> H]. rewrite (IH s2 H). reflexivity.
Qed.

(** ** Further properties: the search and the work test *)

Lemma proof_of_work_of_least_fuel (previous_proof index : Z) (data : string)
    (fuel : nat) (p : Z) :
  least_proof previous_proof index data p -> (p <= Z.of_nat fuel)%Z ->
  _proof_of_work fuel previous_proof index data = Ok p.
Proof.
  intros Hl Hle. pose proof Hl as (H1 & Hp & _).
  destruct (proof_of_work_terminates previous_proof index data p H1 Hp)
    as [p' Hp'].
  pose proof (proof_of_work_of_least _ _ _ _ _ _ Hl Hp') as ->.
  unfold _proof_of_work in *.
  apply (loop_more_fuel _ _ _ _ _ _ fuel Hp'). lia.
Qed.

Lemma hash_operation_shift (p pp idx pp' idx' : Z) (data : string) :
  (idx - pp ^ 2 = idx' - pp' ^ 2)%Z ->
  hash_operation p pp idx data = hash_operation p pp' idx' data.
Proof.
  intros H. rewrite !hash_operation_spec. unfold spec_digest.
  replace (p ^ 2 - pp ^ 2 + idx)%Z with (p ^ 2 - pp' ^ 2 + idx')%Z by lia.
  reflexivity.
Qed.

(** X4. The work test reads the previous proof and the index only through
    [index - previous_proof^2]: two pairs with the same difference pass
    the test for the same proofs and get the same result from
    [_proof_of_work]. *)
Theorem seal_binds_difference_only (pp idx pp' idx' : Z) (data : string) :
  (idx - pp ^ 2 = idx' - pp' ^ 2)%Z ->
  (forall p : Z,
      work_condition p pp idx data = work_condition p pp' idx' data)
  /\ forall fuel : nat,
      _proof_of_work fuel pp idx data = _proof_of_work fuel pp' idx' data.
Proof.
  intros H.
  assert (forall p : Z,
             work_condition p pp idx data = work_condition p pp' idx' data) as Hw.
  { intros p. unfold work_condition.
    rewrite (hash_operation_shift p pp idx pp' idx' data H). reflexivity. }
  split; [exact Hw|]. intros fuel. unfold _proof_of_work. generalize 1%Z.
  induction fuel as [|fuel IH]; intros start; [reflexivity|].
  rewrite !loop_unfold, Hw, IH. reflexivity.
Qed.

Lemma seal_binds_difference_only_witness :
  (2 - 1 ^ 2 = 5 - 2 ^ 2)%Z
  /\ forall fuel : nat,
      _proof_of_work fuel 1 2 Sample.d1 = _proof_of_work fuel 2 5 Sample.d1.
Proof.
  split; [reflexivity|].
  exact (proj2 (seal_binds_difference_only 1 2 2 5 Sample.d1 eq_refl)).
Defined.


(** ** Further properties: deletion on a sealed chain *)

Lemma sealed_validates (prev cur : Block) :
  sealed prev cur -> validate_block cur prev = true.
Proof.
  intros [Hh (_ & Hw & _)]. apply validate_block_true. split; assumption.
Qed.

Lemma resealed_validates (prev cur new : Block) :
  resealed prev cur new -> validate_block new prev = true.
Proof.
  intros (Ei & _ & Ed & Eh & (_ & Hw & _)). apply validate_block_true.
  rewrite Ei, Ed. split; assumption.
Qed.

Lemma resealed_sealed_eq (prev cur new : Block) :
  resealed prev cur new -> sealed prev cur -> new = cur.
Proof.
  intros (Ei & Et & Ed & Eh & El) [Hh Hl].
  pose proof (least_proof_unique _ _ _ _ _ El Hl) as Ep.
  destruct new, cur. cbn in *. congruence.
Qed.

Lemma repair_loop_sealed (fuel : nat) (n : nat) : forall A : list Block,
  n = 0 \/ n < length A ->
  (forall (i : nat) (prev cur : Block),
      i < n -> A !! i = Some prev -> A !! S i = Some cur ->
      sealed prev cur /\ (proof cur <= Z.of_nat fuel)%Z) ->
  repair_loop fuel A (range_down n 0) = Ok A.
Proof.
  induction n as [|n IH]; intros A Hn Hs; [reflexivity|].
  destruct Hn as [Hn|Hn]; [discriminate|].
  rewrite range_down_S. cbn [repair_loop]. unfold getitem.
  replace (S n - 1) with n by lia.
  destruct (lookup_lt_is_Some_2 A (S n) Hn) as [cur Hc].
  destruct (lookup_lt_is_Some_2 A n) as [prev Hp]; [lia|].
  rewrite Hc, Hp. cbn [bind set_previous_hash index data].
  destruct (Hs n prev cur) as [[Hh Hl] Hle]; [lia|exact Hp|exact Hc|].
  rewrite (proof_of_work_of_least_fuel _ _ _ _ _ Hl Hle). cbn [bind].
  replace (set_proof (proof cur) _) with cur
    by (destruct cur; cbn in *; subst; reflexivity).
  rewrite list_insert_id by exact Hc. apply IH; [right; lia|].
  intros i prev' cur' Hi. apply Hs. lia.
Qed.

Lemma delete_block_sealed (fuel : nat) (p : Z) (self self' : Blockchain)
    (b : Block) :
  sealed_below (length (chain self)) (chain self) ->
  find_block p (chain self) = Some b ->
  delete_block fuel p self = Ok self' ->
  exists k : nat,
    chain self !! k = Some b
    /\ length (chain self') = length (chain self) - 1
    /\ (forall j : nat,
           j <> k \/ k = 0 -> chain self' !! j = delete k (chain self) !! j)
    /\ (forall prev next : Block,
           chain self !! k = Some b -> 0 < k ->
           chain self !! (k - 1) = Some prev -> chain self !! S k = Some next ->
           exists new : Block,
             chain self' !! k = Some new /\ resealed prev next new).
Proof.
  intros Hs Hf H.
  destruct (delete_block_inv fuel p self self' b Hf H)
    as (k & Hk & _ & _ & Hr & _).
  exists k. split; [exact Hk|].
  pose proof (repair_loop_reseals _ _ _ Hr) as Hre.
  apply repair_loop_spec in Hr as (Hlen & _ & H0 & _).
  assert (length (delete k (chain self)) = length (chain self) - 1) as Hd
    by (apply length_delete; rewrite Hk; eauto).
  assert (k < length (chain self)) as Hklt
    by (apply lookup_lt_Some in Hk; exact Hk).
  split; [lia|]. split.
  - intros [|i] Hj; [exact H0|].
    destruct (delete k (chain self) !! S i) as [cur|] eqn:Hc.
    + assert (S i < length (delete k (chain self))) as Hi
        by (apply lookup_lt_Some in Hc; exact Hc).
      destruct (lookup_lt_is_Some_2 (delete k (chain self)) i) as [prev Hp];
        [lia|].
      destruct (Hre i prev cur Hp Hc) as (new & Hn & Hx). rewrite Hn. f_equal.
      apply (resealed_sealed_eq prev cur new Hx).
      destruct (Nat.lt_ge_cases (S i) k) as [Hlt|Hge].
      * rewrite list_lookup_delete_lt in Hp by lia.
        rewrite list_lookup_delete_lt in Hc by lia.
        apply (Hs i prev cur); [lia|exact Hp|exact Hc].
      * assert (k <= i) as Hki by (destruct Hj as [Hj|Hj]; lia).
        rewrite list_lookup_delete_ge in Hp by lia.
        rewrite list_lookup_delete_ge in Hc by lia.
        apply (Hs (S i) prev cur); [lia|exact Hp|exact Hc].
    + apply lookup_ge_None in Hc. apply lookup_ge_None. lia.
  - intros prev next _ Hk0 Hprev Hnext.
    destruct k as [|k]; [lia|].
    replace (S k - 1) with k in Hprev by lia.
    apply (Hre k prev next).
    + rewrite list_lookup_delete_lt by lia. exact Hprev.
    + rewrite list_lookup_delete_ge by lia. exact Hnext.
Qed.

Lemma sealed_valid_links (c : list Block) :
  sealed_below (length c) c -> valid_links c.
Proof.
  intros Hs i prev cur Hp Hc. apply sealed_validates.
  apply (Hs i prev cur); [|exact Hp|exact Hc].
  apply lookup_lt_Some in Hc. exact Hc.
Qed.

(** X11. On a chain whose blocks are all sealed, [delete_block] modifies
    at most one surviving block: the one that followed the removed block
    (none when the first block is removed), which is sealed again against
    the block that preceded the removed one. Every other surviving block,
    also those further down the chain, is left as it was. *)
Theorem delete_block_on_sealed_chain (fuel : nat) (p : Z)
    (self self' : Blockchain) (b : Block) :
  sealed_below (length (chain self)) (chain self) ->
  find_block p (chain self) = Some b ->
  delete_block fuel p self = Ok self' ->
  exists k : nat,
    chain self !! k = Some b
    /\ (forall j : nat,
           j <> k \/ k = 0 -> chain self' !! j = delete k (chain self) !! j)
    /\ (forall prev next : Block,
           0 < k ->
           chain self !! (k - 1) = Some prev -> chain self !! S k = Some next ->
           exists new : Block,
             chain self' !! k = Some new /\ resealed prev next new).
Proof.
  intros Hs Hf H.
  destruct (delete_block_sealed fuel p self self' b Hs Hf H)
    as (k & Hk & _ & Hother & Hat).
  exists k. split; [exact Hk|]. split; [exact Hother|].
  intros prev next. apply Hat. exact Hk.
Qed.

Lemma delete_block_on_sealed_chain_witness :
  delete_block Sample.fuel 7
    (mkBlockchain [Sample.g0; Sample.b1; Sample.b2; Sample.b3] [])
  = Ok (mkBlockchain [Sample.g0; Sample.b2'; Sample.b3] ["!FAILED!"])
  /\ exists k : nat,
       [Sample.g0; Sample.b1; Sample.b2; Sample.b3] !! k = Some Sample.b1
       /\ forall j : nat,
            j <> k \/ k = 0 ->
            [Sample.g0; Sample.b2'; Sample.b3] !! j
            = delete k [Sample.g0; Sample.b1; Sample.b2; Sample.b3] !! j.
Proof.
  assert (delete_block Sample.fuel 7
            (mkBlockchain [Sample.g0; Sample.b1; Sample.b2; Sample.b3] [])
          = Ok (mkBlockchain [Sample.g0; Sample.b2'; Sample.b3] ["!FAILED!"]))
    as H by (vm_compute; reflexivity).
  split; [exact H|].
  destruct (delete_block_on_sealed_chain Sample.fuel 7
              (mkBlockchain [Sample.g0; Sample.b1; Sample.b2; Sample.b3] [])
              (mkBlockchain [Sample.g0; Sample.b2'; Sample.b3] ["!FAILED!"])
              Sample.b1) as (k & Hk & Hother & _).
  - apply (mined_chain_sealed Sample.t0 Sample.mine3
             (mkBlockchain [Sample.g0; Sample.b1; Sample.b2; Sample.b3] [])
             eq_refl).
    vm_compute. reflexivity.
  - reflexivity.
  - exact H.
  - exists k. split; [exact Hk|exact Hother].
Defined.


(** X12. When [delete_block] leaves a valid chain. On a chain whose
    blocks are all sealed, [is_chain_valid] accepts the result when the
    removed block was the first, the last or the second to last one. When
    at least two blocks followed the removed one (which was not the
    first), the result is rejected as soon as the repaired block does not
    hash like the block it replaces. *)
Theorem delete_block_validity_on_sealed_chain (fuel : nat) (p : Z)
    (self self' : Blockchain) (b : Block) :
  sealed_below (length (chain self)) (chain self) ->
  find_block p (chain self) = Some b ->
  delete_block fuel p self = Ok self' ->
  exists k : nat,
    chain self !! k = Some b
    /\ (k = 0 \/ length (chain self) <= S (S k) ->
        is_chain_valid self' = Ok true)
    /\ (forall old new : Block,
           0 < k -> S (S k) < length (chain self) ->
           chain self !! S k = Some old -> chain self' !! k = Some new ->
           _hash new <> _hash old ->
           is_chain_valid self' = Ok false).
Proof.
  intros Hs Hf H.
  destruct (delete_block_sealed fuel p self self' b Hs Hf H)
    as (k & Hk & Hlen & Hother & Hat).
  assert (k < length (chain self)) as Hklt
    by (apply lookup_lt_Some in Hk; exact Hk).
  exists k. split; [exact Hk|]. split.
  - intros Hcase. apply is_chain_valid_true. intros j x y Hx Hy.
    assert (S j < length (chain self) - 1) as Hj
      by (apply lookup_lt_Some in Hy; lia).
    destruct (Nat.eq_dec k 0) as [->|Hk0].
    + rewrite Hother in Hx by (right; reflexivity).
      rewrite Hother in Hy by (right; reflexivity).
      rewrite list_lookup_delete_ge in Hx by lia.
      rewrite list_lookup_delete_ge in Hy by lia.
      apply sealed_validates. apply (Hs (S j) x y); [lia|exact Hx|exact Hy].
    + destruct Hcase as [Hcase|Hcase]; [contradiction|].
      assert (S j <= k) as Hjk by lia.
      rewrite Hother in Hx by (left; lia).
      rewrite list_lookup_delete_lt in Hx by lia.
      destruct (Nat.eq_dec (S j) k) as [E|E].
      * destruct (lookup_lt_is_Some_2 (chain self) (S k)) as [next Hn]; [lia|].
        destruct (Hat x next Hk) as (new & Hnew & Hre); [lia| |exact Hn|].
        { replace (k - 1) with j by lia. exact Hx. }
        rewrite E, Hnew in Hy. injection Hy as <-.
        exact (resealed_validates _ _ _ Hre).
      * rewrite Hother in Hy by (left; lia).
        rewrite list_lookup_delete_lt in Hy by lia.
        apply sealed_validates. apply (Hs j x y); [lia|exact Hx|exact Hy].
  - intros old new Hk0 Hlong Hold Hnew Hne. apply is_chain_valid_false.
    intros Hv.
    destruct (lookup_lt_is_Some_2 (chain self) (S (S k))) as [nn Hnn]; [lia|].
    assert (chain self' !! S k = Some nn) as Hnn'.
    { rewrite Hother by (left; lia). rewrite list_lookup_delete_ge by lia.
      exact Hnn. }
    pose proof (proj1 (validate_block_true _ _) (Hv k new nn Hnew Hnn'))
      as [E' _].
    destruct (Hs (S k) old nn) as [E _]; [lia|exact Hold|exact Hnn|].
    congruence.
Qed.

Lemma delete_block_validity_on_sealed_chain_witness :
  delete_block Sample.fuel 8
    (mkBlockchain [Sample.g0; Sample.b1; Sample.b2] [])
  = Ok (mkBlockchain [Sample.g0; Sample.b1] ["!FAILED!"])
  /\ is_chain_valid (mkBlockchain [Sample.g0; Sample.b1] ["!FAILED!"])
     = Ok true.
Proof.
  assert (delete_block Sample.fuel 8
            (mkBlockchain [Sample.g0; Sample.b1; Sample.b2] [])
          = Ok (mkBlockchain [Sample.g0; Sample.b1] ["!FAILED!"]))
    as H by (vm_compute; reflexivity).
  split; [exact H|].
  destruct (delete_block_validity_on_sealed_chain Sample.fuel 8
              (mkBlockchain [Sample.g0; Sample.b1; Sample.b2] [])
              (mkBlockchain [Sample.g0; Sample.b1] ["!FAILED!"])
              Sample.b2) as (k & _ & Hvalid & _).
  - apply (mined_chain_sealed Sample.t0
             [MineBlock 7 Sample.t1 Sample.d1; MineBlock 8 Sample.t2 Sample.d2]
             (mkBlockchain [Sample.g0; Sample.b1; Sample.b2] []) eq_refl).
    vm_compute. reflexivity.
  - reflexivity.
  - exact H.
  - apply Hvalid. destruct k as [|[|k]]; [left; reflexivity|right..];
      cbn; lia.
Defined.


Lemma find_block_app_last (p : Z) (b : Block) (c : list Block) :
  Forall (fun y => proof y <> p) c -> proof b = p ->
  find_block p (c ++ [b]) = Some b.
Proof.
  intros Hc Hb. induction Hc as [|y c Hy _ IH]; cbn [app find_block].
  - rewrite Hb, Z.eqb_refl. reflexivity.
  - destruct (Z.eqb_spec (proof y) p); [contradiction|exact IH].
Qed.

Lemma list_remove_app_last (b : Block) (c : list Block) :
  Forall (fun y => proof y <> proof b) c -> list_remove b (c ++ [b]) = Ok c.
Proof.
  induction 1 as [|y c Hy _ IH]; cbn [app list_remove].
  - rewrite (proj2 (block_eqb_eq b b) eq_refl). reflexivity.
  - destruct (block_eqb y b) eqn:E.
    + apply block_eqb_eq in E. subst. contradiction.
    + rewrite IH. reflexivity.
Qed.

(** X9. [delete_block] undoes [mine_block]. On a sealed chain, when the
    proof of the block just mined is the proof of no earlier block and
    the fuel covers the proofs of the chain, [delete_block] with that
    proof gives back the chain as it was before the [mine_block] (and
    prints its line). *)
Theorem mine_then_delete (fuel : nat) (now data : string)
    (s s1 : Blockchain) (block : Block) :
  sealed_below (length (chain s)) (chain s) ->
  mine_block fuel now data s = Ok (block, s1) ->
  Forall (fun y => proof y <> proof block /\ (proof y <= Z.of_nat fuel)%Z)
         (chain s) ->
  delete_block fuel (proof block) s1
  = Ok (mkBlockchain (chain s) (stdout s ++ ["!FAILED!"])).
Proof.
  intros Hs Hm Hall.
  apply mine_block_inv in Hm as (old & q & _ & _ & _ & ->).
  assert (Forall (fun y => proof y <> proof block) (chain s)) as Hne
    by (eapply Forall_impl; [exact Hall|]; intros y [Hy _]; exact Hy).
  unfold delete_block. cbn [chain stdout].
  rewrite (find_block_app_last _ block _ Hne eq_refl).
  rewrite (list_remove_app_last _ _ Hne). cbn [bind].
  rewrite repair_loop_sealed; [reflexivity| |].
  - destruct (length (chain s)) as [|m]; [left; reflexivity|right; lia].
  - intros i prev cur Hi Hp Hc. split.
    + apply (Hs i prev cur); [lia|exact Hp|exact Hc].
    + exact (proj2 (Forall_lookup_1 _ _ _ _ Hall Hc)).
Qed.

Lemma mine_then_delete_witness :
  mine_block 8 Sample.t2 Sample.d2 (mkBlockchain [Sample.g0; Sample.b1] [])
  = Ok (Sample.b2, mkBlockchain [Sample.g0; Sample.b1; Sample.b2] [])
  /\ delete_block 8 (proof Sample.b2)
       (mkBlockchain [Sample.g0; Sample.b1; Sample.b2] [])
     = Ok (mkBlockchain [Sample.g0; Sample.b1] ["!FAILED!"]).
Proof.
  assert (mine_block 8 Sample.t2 Sample.d2
            (mkBlockchain [Sample.g0; Sample.b1] [])
          = Ok (Sample.b2, mkBlockchain [Sample.g0; Sample.b1; Sample.b2] []))
    as Hm by (vm_compute; reflexivity).
  split; [exact Hm|].
  apply (mine_then_delete 8 Sample.t2 Sample.d2
           (mkBlockchain [Sample.g0; Sample.b1] []) _ Sample.b2).
  - apply (mined_chain_sealed Sample.t0 [MineBlock 7 Sample.t1 Sample.d1]
             (mkBlockchain [Sample.g0; Sample.b1] []) eq_refl).
    vm_compute. reflexivity.
  - exact Hm.
  - constructor; [split; [discriminate|cbn; lia]|].
    constructor; [split; [discriminate|cbn; lia]|]. constructor.
Defined.


(** ** Further properties: what [delete_block] removes and prints *)

Lemma find_block_none_inv (p : Z) (c : list Block) :
  find_block p c = None -> Forall (fun b => proof b <> p) c.
Proof.
  induction c as [|y c IH]; intros H; [constructor|].
  cbn [find_block] in H. destruct (Z.eqb_spec (proof y) p); [discriminate|].
  constructor; [assumption|exact (IH H)].
Qed.

Lemma repair_loop_keeps {T : Type} (f : Block -> T) (fuel : nat)
    (A B : list Block) :
  (forall (b : Block) (p : Z) (h : string),
      f (mkBlock (index b) (timestamp b) (data b) p h) = f b) ->
  repair_loop fuel A (range_down (length A - 1) 0) = Ok B ->
  map f B = map f A.
Proof.
  intros Hf H. apply repair_loop_spec in H as (Hlen & _ & H0 & Hmid).
  rewrite !map_fmap. apply list_eq. intros i. rewrite !list_lookup_fmap.
  destruct i as [|i]; [rewrite H0; reflexivity|].
  destruct (A !! S i) as [cur|] eqn:Hc.
  - assert (S i < length A) as Hlt by (apply lookup_lt_Some in Hc; exact Hc).
    destruct (lookup_lt_is_Some_2 A i) as [prev Hp]; [lia|].
    destruct (Hmid i prev cur) as (p & _ & ->); [lia|exact Hp|exact Hc|].
    cbn. rewrite Hf. reflexivity.
  - apply lookup_ge_None in Hc. rewrite lookup_ge_None_2 by lia. reflexivity.
Qed.

(** X10. What [delete_block] removes and prints. When it returns, either
    no block has the given proof and the ledger is unchanged, or it has
    removed the first block with that proof (no earlier block has it),
    the other blocks keep their order with their index, timestamp and
    data, and the line "!FAILED!" was printed once, although nothing
    failed. *)
Theorem delete_block_first_match (fuel : nat) (p : Z) (self self' : Blockchain) :
  delete_block fuel p self = Ok self' ->
  (Forall (fun b => proof b <> p) (chain self) /\ self' = self)
  \/ exists (k : nat) (b : Block),
       chain self !! k = Some b /\ proof b = p
       /\ (forall (j : nat) (b' : Block),
              j < k -> chain self !! j = Some b' -> proof b' <> p)
       /\ map index (chain self') = delete k (map index (chain self))
       /\ map timestamp (chain self') = delete k (map timestamp (chain self))
       /\ map data (chain self') = delete k (map data (chain self))
       /\ stdout self' = stdout self ++ ["!FAILED!"].
Proof.
  intros H. destruct (find_block p (chain self)) as [b|] eqn:Hf.
  - right. destruct (delete_block_inv fuel p self self' b Hf H)
      as (k & Hk & Hp & Hj & Hr & Hout).
    exists k, b. split; [exact Hk|]. split; [exact Hp|]. split; [exact Hj|].
    rewrite (repair_loop_keeps index _ _ _ (fun _ _ _ => eq_refl) Hr).
    rewrite (repair_loop_keeps timestamp _ _ _ (fun _ _ _ => eq_refl) Hr).
    rewrite (repair_loop_keeps data _ _ _ (fun _ _ _ => eq_refl) Hr).
    rewrite !map_fmap, !list_fmap_delete. repeat split. exact Hout.
  - left. split; [exact (find_block_none_inv _ _ Hf)|].
    unfold delete_block in H. rewrite Hf in H. injection H as <-. reflexivity.
Qed.

Lemma delete_block_first_match_witness :
  delete_block Sample.fuel 13
    (mkBlockchain [Sample.g0; Sample.b1; Sample.b2; Sample.b3] [])
  = Ok (mkBlockchain [Sample.g0; Sample.b1; Sample.b2] ["!FAILED!"])
  /\ exists (k : nat) (b : Block),
       [Sample.g0; Sample.b1; Sample.b2; Sample.b3] !! k = Some b
       /\ proof b = 13%Z
       /\ map index [Sample.g0; Sample.b1; Sample.b2]
          = delete k (map index [Sample.g0; Sample.b1; Sample.b2; Sample.b3]).
Proof.
  assert (delete_block Sample.fuel 13
            (mkBlockchain [Sample.g0; Sample.b1; Sample.b2; Sample.b3] [])
          = Ok (mkBlockchain [Sample.g0; Sample.b1; Sample.b2] ["!FAILED!"]))
    as H by (vm_compute; reflexivity).
  split; [exact H|].
  destruct (delete_block_first_match Sample.fuel 13
              (mkBlockchain [Sample.g0; Sample.b1; Sample.b2; Sample.b3] [])
              (mkBlockchain [Sample.g0; Sample.b1; Sample.b2] ["!FAILED!"]) H)
    as [[_ E]|(k & b & Hk & Hp & _ & Hi & _)]; [discriminate|].
  exists k, b. repeat split; assumption.
Defined.


(** ** Further properties: ledgers built by mining *)

Lemma run_call_quiet (c : call) (s s' : Blockchain) :
  negb (is_delete c) = true -> stdout s = [] -> run_call c s = Ok s' ->
  stdout s' = [].
Proof.
  intros Hc Hs H. destruct c as [fuel now data|fuel p|]; [|discriminate|].
  - apply run_call_mine in H as [block H].
    apply mine_block_inv in H as (_ & _ & _ & _ & _ & ->). exact Hs.
  - cbn [run_call] in H. unfold clear in H.
    destruct (getitem (chain s) 0); try discriminate.
    cbn [bind] in H. injection H as <-. exact Hs.
Qed.

Lemma no_delete_spares (cs : list call) :
  forallb (fun c => negb (is_delete c)) cs = true ->
  forallb spares_genesis cs = true.
Proof.
  rewrite !forallb_forall. intros H c Hc. specialize (H c Hc).
  destruct c; [reflexivity|discriminate|reflexivity].
Qed.

(** X7. Every ledger reached from a fresh one by [mine_block] and [clear]
    calls alone is accepted by [is_chain_valid]; each of its blocks is
    sealed against the block before it, its first block is the genesis
    block and nothing was printed. *)
Theorem mined_ledger_valid (now0 : string) (cs : list call) (s : Blockchain) :
  forallb (fun c => negb (is_delete c)) cs = true ->
  run_calls cs (init now0) = Ok s ->
  is_chain_valid s = Ok true
  /\ sealed_below (length (chain s)) (chain s)
  /\ chain s !! 0 = Some (genesis_block now0)
  /\ stdout s = [].
Proof.
  intros Ha H. pose proof (mined_chain_sealed now0 cs s Ha H) as Hs.
  split; [apply is_chain_valid_true, sealed_valid_links; exact Hs|].
  split; [exact Hs|].
  split; [exact (genesis_kept now0 cs s (no_delete_spares cs Ha) H)|].
  apply (run_calls_invariant (fun c => negb (is_delete c))
           (fun s => stdout s = []) run_call_quiet cs (init now0) s Ha);
    [reflexivity|exact H].
Qed.

Lemma mined_ledger_valid_witness :
  run_calls Sample.mine3 (init Sample.t0)
  = Ok (mkBlockchain [Sample.g0; Sample.b1; Sample.b2; Sample.b3] [])
  /\ is_chain_valid
       (mkBlockchain [Sample.g0; Sample.b1; Sample.b2; Sample.b3] [])
     = Ok true.
Proof.
  assert (run_calls Sample.mine3 (init Sample.t0)
          = Ok (mkBlockchain [Sample.g0; Sample.b1; Sample.b2; Sample.b3] []))
    as H by (vm_compute; reflexivity).
  split; [exact H|].
  exact (proj1 (mined_ledger_valid Sample.t0 Sample.mine3 _ eq_refl H)).
Defined.

Lemma valid_links_prefix (c l : list Block) :
  valid_links (c ++ l) -> valid_links c.
Proof.
  intros H i prev cur Hp Hc. apply (H i prev cur); apply lookup_app_l_Some;
    assumption.
Qed.

(** X8. [mine_block] never changes the verdict of [is_chain_valid]: a
    chain that was accepted is accepted with the new block, and a chain
    that was rejected stays rejected, since no existing block is
    repaired. *)
Theorem mine_block_keeps_verdict (fuel : nat) (now data : string)
    (self self' : Blockchain) (block : Block) :
  mine_block fuel now data self = Ok (block, self') ->
  is_chain_valid self' = is_chain_valid self.
Proof.
  intros H. apply mine_block_inv in H as (old & p & Hl & Hp & Hb & ->).
  rewrite !is_chain_valid_spec. cbn [chain]. f_equal.
  destruct (chain_ok (chain self)) eqn:Hv.
  - apply chain_ok_valid_links. apply valid_links_app.
    + apply chain_ok_valid_links. exact Hv.
    + intros l Hlast. rewrite Hl in Hlast. injection Hlast as <-.
      apply validate_block_true. rewrite Hb. cbn. split; [reflexivity|].
      apply proof_of_work_least in Hp as (_ & Hw & _). exact Hw.
  - destruct (chain_ok (chain self ++ [block])) eqn:Hv'; [|reflexivity].
    apply chain_ok_valid_links, valid_links_prefix, chain_ok_valid_links in Hv'.
    congruence.
Qed.

Lemma mine_block_keeps_verdict_witness :
  mine_block 2 Sample.t5 "frank->gina:21685"
    (mkBlockchain [Sample.g0; Sample.b2'; Sample.b3] ["!FAILED!"])
  = Ok (mkBlock 4 Sample.t5 "frank->gina:21685" 2 (_hash Sample.b3),
        mkBlockchain
          [Sample.g0; Sample.b2'; Sample.b3;
           mkBlock 4 Sample.t5 "frank->gina:21685" 2 (_hash Sample.b3)]
          ["!FAILED!"])
  /\ is_chain_valid
       (mkBlockchain
          [Sample.g0; Sample.b2'; Sample.b3;
           mkBlock 4 Sample.t5 "frank->gina:21685" 2 (_hash Sample.b3)]
          ["!FAILED!"])
     = is_chain_valid
         (mkBlockchain [Sample.g0; Sample.b2'; Sample.b3] ["!FAILED!"]).
Proof.
  assert (mine_block 2 Sample.t5 "frank->gina:21685"
            (mkBlockchain [Sample.g0; Sample.b2'; Sample.b3] ["!FAILED!"])
          = Ok (mkBlock 4 Sample.t5 "frank->gina:21685" 2 (_hash Sample.b3),
                mkBlockchain
                  [Sample.g0; Sample.b2'; Sample.b3;
                   mkBlock 4 Sample.t5 "frank->gina:21685" 2
                     (_hash Sample.b3)]
                  ["!FAILED!"])) as H by (vm_compute; reflexivity).
  split; [exact H|].
  exact (mine_block_keeps_verdict 2 Sample.t5 "frank->gina:21685" _ _ _ H).
Defined.



(** ** Further properties: the bytes of the work test *)

Lemma string_of_uint_revapp (d : Decimal.uint) : forall acc : Decimal.uint,
  NilEmpty.string_of_uint (Decimal.revapp d acc)
  = (NilEmpty.string_of_uint (Decimal.rev d)
     ++ NilEmpty.string_of_uint acc)%string.
Proof.
  unfold Decimal.rev.
  induction d as [|d IH|d IH|d IH|d IH|d IH|d IH|d IH|d IH|d IH|d IH];
    intros acc; cbn [Decimal.revapp]; [reflexivity|..];
    rewrite (IH (_ acc)), (IH (_ Decimal.Nil)), append_assoc; reflexivity.
Qed.

Lemma nilzero_nonnil (d : Decimal.uint) :
  d <> Decimal.Nil -> NilZero.string_of_uint d = NilEmpty.string_of_uint d.
Proof. destruct d; [contradiction|reflexivity..]. Qed.

Lemma str_of_int_tenfold (n : Z) :
  (0 < n)%Z -> str_of_int (10 * n) = (str_of_int n ++ "0")%string.
Proof.
  destruct n as [|p|p]; try lia. intros _.
  change (10 * Z.pos p)%Z with (Z.pos (10 * p)).
  unfold str_of_int. cbn [Z.to_int NilZero.string_of_int].
  rewrite !nilzero_nonnil by apply Unsigned.to_uint_nonnil.
  unfold Pos.to_uint.
  pose proof (Unsigned.to_ldec_tenfold p) as H. cbn [Unsigned.to_lu N.mul] in H.
  change (Pos.to_little_uint (10 * p)) with (Unsigned.to_lu (N.pos (10 * p))).
  change (N.pos (10 * p)) with (10 * N.pos p)%N.
  rewrite Unsigned.to_ldec_tenfold. unfold Decimal.rev at 1.
  cbn [Decimal.revapp]. rewrite string_of_uint_revapp. reflexivity.
Qed.




(** ** Further properties: [clear] *)

(** X13. [clear] makes any ledger valid again. When it returns, only the
    first block of the chain is left, whatever that block is,
    [is_chain_valid] accepts the ledger, nothing was printed by the call,
    and a second [clear] changes nothing. *)
Theorem clear_resets (s s' : Blockchain) :
  clear s = Ok s' ->
  chain s' = take 1 (chain s)
  /\ length (chain s') = 1
  /\ stdout s' = stdout s
  /\ is_chain_valid s' = Ok true
  /\ clear s' = Ok s'.
Proof.
  unfold clear, getitem. destruct (chain s) as [|first rest] eqn:Hc;
    [discriminate|].
  cbn [bind]. intros H. injection H as <-. cbn [chain stdout take].
  rewrite is_chain_valid_spec. repeat split.
Qed.

Lemma clear_resets_witness :
  clear (mkBlockchain [Sample.g0; Sample.b2'; Sample.b3] ["!FAILED!"])
  = Ok (mkBlockchain [Sample.g0] ["!FAILED!"])
  /\ is_chain_valid (mkBlockchain [Sample.g0] ["!FAILED!"]) = Ok true.
Proof.
  split; [reflexivity|].
  exact (proj1 (proj2 (proj2 (proj2
           (clear_resets
              (mkBlockchain [Sample.g0; Sample.b2'; Sample.b3] ["!FAILED!"])
              (mkBlockchain [Sample.g0] ["!FAILED!"]) eq_refl))))).
Defined.

(** * The class with the error paths of its conversions *)

(** ** The exact class: the conversions *)

#[local] Opaque SHA256.hexdigest.

Lemma exact_Ok_inj {A : Type} (a b : A) :
  Exact.Ok a = Exact.Ok b -> a = b.
Proof. intros H. injection H as H. exact H. Qed.

Lemma exact_str_raises (n : Z) (e : Exact.exn) :
  Exact.str n = Exact.Raise e -> e = Exact.ValueError.
Proof.
  unfold Exact.str. destruct (_ <? _)%nat; [|discriminate].
  intros H. injection H as <-. reflexivity.
Qed.

Lemma exact_str_raise_iff (n : Z) (e : Exact.exn) :
  Exact.str n = Exact.Raise e <->
  e = Exact.ValueError /\ Exact.int_max_str_digits < Exact.digits n.
Proof.
  unfold Exact.str.
  destruct (Nat.ltb_spec Exact.int_max_str_digits (Exact.digits n)).
  - split; [intros Hr; injection Hr as <-; split; [reflexivity|assumption]|].
    intros [-> _]. reflexivity.
  - split; [discriminate|]. intros [_ Hd]. lia.
Qed.

Lemma of_ascii_small (s : string) :
  Forall (fun c => (c < 256)%N) (Exact.of_ascii s).
Proof.
  unfold Exact.of_ascii. induction s as [|a s IH]; cbn; constructor;
    [apply N_ascii_bounded|exact IH].
Qed.

Lemma small_no_surrogate (s : Exact.pystr) :
  Forall (fun c => (c < 256)%N) s -> ~ Exact.has_surrogate s.
Proof.
  intros Hs Hx. unfold Exact.has_surrogate in Hx.
  rewrite Exists_exists in Hx. destruct Hx as (c & Hin & Hc).
  rewrite Forall_forall in Hs. specialize (Hs c Hin).
  unfold Exact.surrogate in Hc. lia.
Qed.

Lemma exact_str_small (n : Z) (s : Exact.pystr) :
  Exact.str n = Exact.Ok s -> Forall (fun c => (c < 256)%N) s.
Proof.
  unfold Exact.str. destruct (_ <? _)%nat; [discriminate|].
  intros H. injection H as <-. apply of_ascii_small.
Qed.

Lemma exact_str_fuel (n : Z) : Exact.str n <> Exact.OutOfFuel.
Proof. unfold Exact.str. destruct (_ <? _)%nat; discriminate. Qed.

Lemma exact_encode_char_raises (c : N) (e : Exact.exn) :
  Exact.encode_char c = Exact.Raise e ->
  e = Exact.UnicodeEncodeError /\ Exact.surrogate c.
Proof.
  unfold Exact.encode_char, Exact.surrogate.
  destruct (c <? 0x80)%N; [discriminate|].
  destruct (c <? 0x800)%N; [discriminate|].
  destruct (c <? 0x10000)%N; [|discriminate].
  destruct (N.leb_spec 0xD800 c); destruct (N.leb_spec c 0xDFFF);
    cbn [andb]; try discriminate.
  intros Hr. injection Hr as <-. split; [reflexivity|lia].
Qed.

Lemma exact_encode_char_surrogate (c : N) :
  Exact.surrogate c ->
  Exact.encode_char c = Exact.Raise Exact.UnicodeEncodeError.
Proof.
  unfold Exact.surrogate. intros Hc. unfold Exact.encode_char.
  destruct (N.ltb_spec c 0x80); [lia|].
  destruct (N.ltb_spec c 0x800); [lia|].
  destruct (N.ltb_spec c 0x10000); [|lia].
  destruct (N.leb_spec 0xD800 c); [|lia].
  destruct (N.leb_spec c 0xDFFF); [|lia]. reflexivity.
Qed.

Lemma exact_encode_char_fuel (c : N) :
  Exact.encode_char c <> Exact.OutOfFuel.
Proof.
  unfold Exact.encode_char.
  destruct (c <? 0x80)%N; [discriminate|].
  destruct (c <? 0x800)%N; [discriminate|].
  destruct (c <? 0x10000)%N; [|discriminate].
  destruct (_ && _); discriminate.
Qed.

(** [str.encode] raises exactly on a string that holds a surrogate. *)
Lemma exact_encode_raises (s : Exact.pystr) (e : Exact.exn) :
  Exact.encode s = Exact.Raise e <->
  e = Exact.UnicodeEncodeError /\ Exact.has_surrogate s.
Proof.
  unfold Exact.has_surrogate.
  induction s as [|c s IH]; cbn [Exact.encode].
  - split; [discriminate|]. intros [_ H]. inversion H.
  - destruct (Exact.encode_char c) as [b|e'|] eqn:Hc; cbn [Exact.bind].
    + assert (Hhead : ~ Exact.surrogate c).
      { intros Hx. rewrite (exact_encode_char_surrogate c Hx) in Hc.
        discriminate. }
      destruct (Exact.encode s) as [r|e'|] eqn:Hs; cbn [Exact.bind].
      * split; [discriminate|]. intros [-> H].
        inversion H as [? ? Hx|? ? Hx]; subst; [contradiction|].
        pose proof (proj2 IH (conj eq_refl Hx)) as Hr. discriminate.
      * split.
        -- intros Hr. injection Hr as <-.
           destruct (proj1 IH eq_refl) as [-> Hx].
           split; [reflexivity|]. apply Exists_cons_tl. exact Hx.
        -- intros [-> H]. inversion H as [? ? Hx|? ? Hx]; subst;
             [contradiction|].
           exact (proj2 IH (conj eq_refl Hx)).
      * split; [discriminate|]. intros [-> H].
        inversion H as [? ? Hx|? ? Hx]; subst; [contradiction|].
        pose proof (proj2 IH (conj eq_refl Hx)) as Hr. discriminate.
    + apply exact_encode_char_raises in Hc as [-> Hx]. split.
      * intros Hr. injection Hr as <-. split; [reflexivity|].
        apply Exists_cons_hd. exact Hx.
      * intros [-> _]. reflexivity.
    + exfalso. exact (exact_encode_char_fuel c Hc).
Qed.

Lemma exact_encode_fuel (s : Exact.pystr) : Exact.encode s <> Exact.OutOfFuel.
Proof.
  induction s as [|c s IH]; cbn [Exact.encode]; [discriminate|].
  destruct (Exact.encode_char c) as [b|e'|] eqn:Hc; cbn [Exact.bind].
  - destruct (Exact.encode s) as [r|e'|]; cbn [Exact.bind];
      [discriminate|discriminate|contradiction].
  - discriminate.
  - exfalso. exact (exact_encode_char_fuel c Hc).
Qed.

(** ** The exact class: hashing *)

Lemma exact_to_digest_raises (p pp idx : Z) (d : Exact.pystr) (e : Exact.exn) :
  Exact._to_digest p pp idx d = Exact.Raise e -> conversion_error e.
Proof.
  unfold Exact._to_digest.
  destruct (Exact.str _) as [n|e'|] eqn:Hn; cbn [Exact.bind].
  - intros H. apply exact_encode_raises in H as [-> _]. right. reflexivity.
  - intros H. injection H as <-. apply exact_str_raises in Hn as ->.
    left. reflexivity.
  - discriminate.
Qed.

Lemma exact_to_digest_fuel (p pp idx : Z) (d : Exact.pystr) :
  Exact._to_digest p pp idx d <> Exact.OutOfFuel.
Proof.
  unfold Exact._to_digest.
  destruct (Exact.str _) as [n|e'|] eqn:Hn; cbn [Exact.bind].
  - apply exact_encode_fuel.
  - discriminate.
  - exfalso. exact (exact_str_fuel _ Hn).
Qed.

Lemma exact_hash_operation_raises (p pp idx : Z) (d : Exact.pystr)
    (e : Exact.exn) :
  Exact.hash_operation p pp idx d = Exact.Raise e -> conversion_error e.
Proof.
  unfold Exact.hash_operation.
  destruct (Exact._to_digest p pp idx d) as [b|e'|] eqn:Hd; cbn [Exact.bind];
    [discriminate| |discriminate].
  intros H. injection H as <-. exact (exact_to_digest_raises _ _ _ _ _ Hd).
Qed.

Lemma exact_hash_operation_fuel (p pp idx : Z) (d : Exact.pystr) :
  Exact.hash_operation p pp idx d <> Exact.OutOfFuel.
Proof.
  unfold Exact.hash_operation.
  destruct (Exact._to_digest p pp idx d) as [b|e'|] eqn:Hd; cbn [Exact.bind];
    [discriminate|discriminate|].
  intros _. exact (exact_to_digest_fuel _ _ _ _ Hd).
Qed.

Lemma exact_json_dumps_raises (b : Exact.Block) (e : Exact.exn) :
  Exact.json_dumps b = Exact.Raise e -> e = Exact.ValueError.
Proof.
  unfold Exact.json_dumps.
  destruct (Exact.str (Exact.index b)) as [i|e'|] eqn:Hi; cbn [Exact.bind].
  - destruct (Exact.str (Exact.proof b)) as [p|e'|] eqn:Hp; cbn [Exact.bind];
      [discriminate| |discriminate].
    intros H. injection H as <-. exact (exact_str_raises _ _ Hp).
  - intros H. injection H as <-. exact (exact_str_raises _ _ Hi).
  - discriminate.
Qed.

Lemma exact_json_dumps_fuel (b : Exact.Block) :
  Exact.json_dumps b <> Exact.OutOfFuel.
Proof.
  unfold Exact.json_dumps.
  destruct (Exact.str (Exact.index b)) as [i|e'|] eqn:Hi; cbn [Exact.bind].
  - destruct (Exact.str (Exact.proof b)) as [p|e'|] eqn:Hp; cbn [Exact.bind];
      [discriminate|discriminate|].
    intros _. exact (exact_str_fuel _ Hp).
  - discriminate.
  - intros _. exact (exact_str_fuel _ Hi).
Qed.

Lemma exact_hash_raises (b : Exact.Block) (e : Exact.exn) :
  Exact._hash b = Exact.Raise e -> conversion_error e.
Proof.
  unfold Exact._hash.
  destruct (Exact.json_dumps b) as [t|e'|] eqn:Ht; cbn [Exact.bind].
  - destruct (Exact.encode t) as [bs|e'|] eqn:Hbs; cbn [Exact.bind];
      [discriminate| |discriminate].
    intros H. injection H as <-. apply exact_encode_raises in Hbs as [-> _].
    right. reflexivity.
  - intros H. injection H as <-. apply exact_json_dumps_raises in Ht as ->.
    left. reflexivity.
  - discriminate.
Qed.

Lemma exact_hash_fuel (b : Exact.Block) : Exact._hash b <> Exact.OutOfFuel.
Proof.
  unfold Exact._hash.
  destruct (Exact.json_dumps b) as [t|e'|] eqn:Ht; cbn [Exact.bind].
  - destruct (Exact.encode t) as [bs|e'|] eqn:Hbs; cbn [Exact.bind];
      [discriminate|discriminate|].
    intros _. exact (exact_encode_fuel _ Hbs).
  - discriminate.
  - intros _. exact (exact_json_dumps_fuel _ Ht).
Qed.

Lemma exact_work_test_raises (p pp idx : Z) (d : Exact.pystr) (e : Exact.exn) :
  Exact.work_test p pp idx d = Exact.Raise e -> conversion_error e.
Proof.
  unfold Exact.work_test.
  destruct (Exact.hash_operation p pp idx d) as [h|e'|] eqn:Hh;
    cbn [Exact.bind]; [discriminate| |discriminate].
  intros H. injection H as <-. exact (exact_hash_operation_raises _ _ _ _ _ Hh).
Qed.

Lemma exact_work_test_fuel (p pp idx : Z) (d : Exact.pystr) :
  Exact.work_test p pp idx d <> Exact.OutOfFuel.
Proof.
  unfold Exact.work_test.
  destruct (Exact.hash_operation p pp idx d) as [h|e'|] eqn:Hh;
    cbn [Exact.bind]; [discriminate|discriminate|].
  intros _. exact (exact_hash_operation_fuel _ _ _ _ Hh).
Qed.

Lemma conversion_error_not_index (e : Exact.exn) :
  conversion_error e -> e <> Exact.IndexError.
Proof. intros [-> | ->]; discriminate. Qed.







(** The work test raises [ValueError] when the number has more than 4300
    digits, and otherwise [UnicodeEncodeError] when the data holds a
    surrogate; it raises in no other case. *)
Lemma exact_work_test_raise_iff (p pp idx : Z) (d : Exact.pystr)
    (e : Exact.exn) :
  Exact.work_test p pp idx d = Exact.Raise e <->
  (e = Exact.ValueError
   /\ Exact.int_max_str_digits < Exact.digits (p ^ 2 - pp ^ 2 + idx))
  \/ (e = Exact.UnicodeEncodeError
      /\ Exact.digits (p ^ 2 - pp ^ 2 + idx) <= Exact.int_max_str_digits
      /\ Exact.has_surrogate d).
Proof.
  unfold Exact.work_test, Exact.hash_operation, Exact._to_digest.
  destruct (Exact.str (p ^ 2 - pp ^ 2 + idx)) as [n|e'|] eqn:Hn;
    cbn [Exact.bind].
  - assert (Hd : Exact.digits (p ^ 2 - pp ^ 2 + idx)
                 <= Exact.int_max_str_digits).
    { destruct (Nat.le_gt_cases (Exact.digits (p ^ 2 - pp ^ 2 + idx))
                  Exact.int_max_str_digits) as [Hle|Hgt]; [exact Hle|].
      pose proof (proj2 (exact_str_raise_iff _ _) (conj eq_refl Hgt)).
      congruence. }
    pose proof (small_no_surrogate _ (exact_str_small _ _ Hn)) as Hsmall.
    destruct (Exact.encode (n ++ d)) as [bs|e'|] eqn:Hbs; cbn [Exact.bind].
    + split; [discriminate|]. intros [[_ Hgt]|[_ [_ Hs]]]; [lia|].
      exfalso.
      assert (Exact.has_surrogate (n ++ d)) as Hs'
        by (apply Exists_app; right; exact Hs).
      pose proof (proj2 (exact_encode_raises _ _) (conj eq_refl Hs')).
      congruence.
    + apply exact_encode_raises in Hbs as [-> Hs].
      apply Exists_app in Hs as [Hs|Hs]; [contradiction|]. split.
      * intros Hr. injection Hr as <-. right. split; [reflexivity|].
        split; assumption.
      * intros [[-> Hgt]|[-> _]]; [lia|reflexivity].
    + exfalso. exact (exact_encode_fuel _ Hbs).
  - apply exact_str_raise_iff in Hn as [-> Hgt]. split.
    + intros Hr. injection Hr as <-. left. split; [reflexivity|exact Hgt].
    + intros [[-> _]|[_ [Hle _]]]; [reflexivity|lia].
  - exfalso. exact (exact_str_fuel _ Hn).
Qed.

Lemma exact_hash_unfold (b : Exact.Block) :
  Exact._hash b =
  Exact.bind (Exact.json_dumps b) (fun dumped =>
  Exact.bind (Exact.encode dumped) (fun encoded_block =>
  Exact.Ok (Exact.hexdigest encoded_block))).
Proof. reflexivity. Qed.

#[local] Opaque Exact.hash_operation Exact._hash.

(** ** The exact class: the search *)

Section ExactProofOfWork.

Variables (previous_proof index : Z) (data : Exact.pystr).

Local Abbreviation work p := (Exact.work_test p previous_proof index data).
Local Abbreviation loop fuel start :=
  (Exact._proof_of_work_loop fuel start previous_proof index data).

Lemma exact_loop_step (fuel : nat) (start : Z) :
  loop (S fuel) start =
  match work start with
  | Exact.Ok true => Exact.Ok start
  | Exact.Ok false => loop fuel (start + 1)%Z
  | Exact.Raise e => Exact.Raise e
  | Exact.OutOfFuel => Exact.OutOfFuel
  end.
Proof.
  unfold Exact.work_test. cbn [Exact._proof_of_work_loop].
  destruct (Exact.hash_operation start previous_proof index data);
    cbn [Exact.bind]; reflexivity.
Qed.

Lemma exact_loop_ok (fuel : nat) (start p : Z) :
  loop fuel start = Exact.Ok p <->
  (start <= p < start + Z.of_nat fuel)%Z
  /\ work p = Exact.Ok true
  /\ forall q, (start <= q < p)%Z -> work q = Exact.Ok false.
Proof.
  revert start. induction fuel as [|fuel IH]; intros start.
  - cbn. split; [discriminate|]. intros [H _]. lia.
  - rewrite exact_loop_step.
    destruct (work start) as [[|]|e|] eqn:Hw.
    + split.
      * intros H. injection H as <-.
        split; [lia|]. split; [exact Hw|]. intros q Hq. lia.
      * intros (Hr & Hp & Hlt).
        destruct (Z.eq_dec p start) as [->|Hne]; [reflexivity|].
        rewrite (Hlt start) in Hw by lia. discriminate.
    + rewrite IH. split.
      * intros (Hr & Hp & Hlt). split; [lia|]. split; [exact Hp|].
        intros q Hq. destruct (Z.eq_dec q start) as [->|Hne]; [exact Hw|].
        apply Hlt. lia.
      * intros (Hr & Hp & Hlt).
        assert (p <> start) by (intros ->; rewrite Hw in Hp; discriminate).
        split; [lia|]. split; [exact Hp|]. intros q Hq. apply Hlt. lia.
    + split; [discriminate|]. intros (Hr & Hp & Hlt).
      destruct (Z.eq_dec p start) as [->|Hne].
      * rewrite Hw in Hp. discriminate.
      * rewrite (Hlt start) in Hw by lia. discriminate.
    + exfalso. exact (exact_work_test_fuel _ _ _ _ Hw).
Qed.

Lemma exact_loop_raise (fuel : nat) (start : Z) (e : Exact.exn) :
  loop fuel start = Exact.Raise e <->
  exists q, (start <= q < start + Z.of_nat fuel)%Z
    /\ work q = Exact.Raise e
    /\ forall q', (start <= q' < q)%Z -> work q' = Exact.Ok false.
Proof.
  revert start. induction fuel as [|fuel IH]; intros start.
  - cbn. split; [discriminate|]. intros (q & H & _). lia.
  - rewrite exact_loop_step.
    destruct (work start) as [[|]|e'|] eqn:Hw.
    + split; [discriminate|]. intros (q & Hr & Hq & Hlt).
      destruct (Z.eq_dec q start) as [->|Hne].
      * rewrite Hw in Hq. discriminate.
      * rewrite (Hlt start) in Hw by lia. discriminate.
    + rewrite IH. split.
      * intros (q & Hr & Hq & Hlt). exists q.
        split; [lia|]. split; [exact Hq|].
        intros q' Hq'. destruct (Z.eq_dec q' start) as [->|Hne]; [exact Hw|].
        apply Hlt. lia.
      * intros (q & Hr & Hq & Hlt).
        assert (q <> start) by (intros ->; rewrite Hw in Hq; discriminate).
        exists q. split; [lia|]. split; [exact Hq|].
        intros q' Hq'. apply Hlt. lia.
    + split.
      * intros H. injection H as <-. exists start.
        split; [lia|]. split; [exact Hw|]. intros q' Hq'. lia.
      * intros (q & Hr & Hq & Hlt).
        destruct (Z.eq_dec q start) as [->|Hne].
        -- rewrite Hw in Hq. injection Hq as ->. reflexivity.
        -- rewrite (Hlt start) in Hw by lia. discriminate.
    + exfalso. exact (exact_work_test_fuel _ _ _ _ Hw).
Qed.

Lemma exact_loop_out_of_fuel (fuel : nat) (start : Z) :
  loop fuel start = Exact.OutOfFuel <->
  forall q, (start <= q < start + Z.of_nat fuel)%Z -> work q = Exact.Ok false.
Proof.
  revert start. induction fuel as [|fuel IH]; intros start.
  - cbn. split; [|reflexivity]. intros _ q Hq. lia.
  - rewrite exact_loop_step.
    destruct (work start) as [[|]|e'|] eqn:Hw.
    + split; [discriminate|]. intros H. rewrite (H start) in Hw by lia.
      discriminate.
    + rewrite IH. split.
      * intros H q Hq. destruct (Z.eq_dec q start) as [->|Hne]; [exact Hw|].
        apply H. lia.
      * intros H q Hq. apply H. lia.
    + split; [discriminate|]. intros H. rewrite (H start) in Hw by lia.
      discriminate.
    + exfalso. exact (exact_work_test_fuel _ _ _ _ Hw).
Qed.

End ExactProofOfWork.

(** ** The exact class: validation *)

Lemma exact_validate_block_eq (block previous_block : Exact.Block) :
  Exact.validate_block block previous_block =
  match Exact._hash previous_block with
  | Exact.Ok h =>
      if Exact.pystr_eqb (Exact.previous_hash block) h
      then Exact.work_test (Exact.proof block) (Exact.proof previous_block)
             (Exact.index block) (Exact.data block)
      else Exact.Ok false
  | Exact.Raise e => Exact.Raise e
  | Exact.OutOfFuel => Exact.OutOfFuel
  end.
Proof.
  unfold Exact.validate_block, Exact.work_test.
  destruct (Exact._hash previous_block) as [h|e|]; cbn [Exact.bind];
    try reflexivity.
  destruct (Exact.pystr_eqb _ h); cbn [negb]; [|reflexivity].
  destruct (Exact.hash_operation _ _ _ _) as [ho|e|]; cbn [Exact.bind];
    try reflexivity.
  destruct (Exact.starts_0000 ho); reflexivity.
Qed.

Lemma exact_validate_block_raises (block previous_block : Exact.Block)
    (e : Exact.exn) :
  Exact.validate_block block previous_block = Exact.Raise e ->
  conversion_error e.
Proof.
  rewrite exact_validate_block_eq.
  destruct (Exact._hash previous_block) as [h|e'|] eqn:Hh.
  - destruct (Exact.pystr_eqb _ h); [|discriminate].
    apply exact_work_test_raises.
  - intros H. injection H as <-. exact (exact_hash_raises _ _ Hh).
  - discriminate.
Qed.

Lemma exact_validate_block_fuel (block previous_block : Exact.Block) :
  Exact.validate_block block previous_block <> Exact.OutOfFuel.
Proof.
  rewrite exact_validate_block_eq.
  destruct (Exact._hash previous_block) as [h|e'|] eqn:Hh.
  - destruct (Exact.pystr_eqb _ h); [|discriminate].
    apply exact_work_test_fuel.
  - discriminate.
  - intros _. exact (exact_hash_fuel _ Hh).
Qed.

Lemma exact_links_step (prev cur : Exact.Block) (rest : list Exact.Block) :
  Exact.links prev (cur :: rest) =
  match Exact.validate_block cur prev with
  | Exact.Ok true => Exact.links cur rest
  | other => other
  end.
Proof.
  cbn [Exact.links].
  destruct (Exact.validate_block cur prev) as [[|]|e|]; reflexivity.
Qed.

Lemma exact_is_chain_valid_loop_links (rest : list Exact.Block) :
  forall (pre : list Exact.Block) (prev : Exact.Block),
    Exact.is_chain_valid_loop (pre ++ prev :: rest)
      (seq (S (length pre)) (length rest))
    = Exact.links prev rest.
Proof.
  induction rest as [|cur rest IH]; intros pre prev; [reflexivity|].
  cbn [length seq Exact.is_chain_valid_loop Exact.links]. unfold Exact.getitem.
  replace (S (length pre) - 1) with (length pre) by lia.
  rewrite (list_lookup_middle pre (cur :: rest) prev (length pre) eq_refl).
  replace (pre ++ prev :: cur :: rest) with ((pre ++ [prev]) ++ cur :: rest)
    by (rewrite <- app_assoc; reflexivity).
  rewrite (list_lookup_middle (pre ++ [prev]) rest cur (S (length pre)))
    by (rewrite length_app; cbn; lia).
  cbn [Exact.bind].
  destruct (Exact.validate_block cur prev) as [v|e|]; cbn [Exact.bind];
    try reflexivity.
  destruct v; cbn [negb]; [|reflexivity].
  specialize (IH (pre ++ [prev]) cur).
  rewrite length_app in IH. cbn [length] in IH.
  replace (length pre + 1) with (S (length pre)) in IH by lia. exact IH.
Qed.

Lemma exact_is_chain_valid_verdict (self : Exact.Blockchain) :
  Exact.is_chain_valid self = Exact.verdict (Exact.chain self).
Proof.
  unfold Exact.is_chain_valid, range.
  destruct (Exact.chain self) as [|first rest]; [reflexivity|].
  cbn [length Exact.verdict].
  replace (S (length rest) - 1) with (length rest) by lia.
  exact (exact_is_chain_valid_loop_links rest [] first).
Qed.

Lemma exact_links_true (rest : list Exact.Block) : forall prev : Exact.Block,
  Exact.links prev rest = Exact.Ok true <-> all_pairs_pass (prev :: rest).
Proof.
  induction rest as [|cur rest IH]; intros prev.
  - split; [|reflexivity]. intros _ i p c Hp Hc. destruct i; discriminate.
  - rewrite exact_links_step. split.
    + intros H.
      destruct (Exact.validate_block cur prev) as [[|]|e|] eqn:Hv;
        try discriminate.
      apply IH in H. intros [|i] p c Hp Hc.
      * injection Hp as <-. injection Hc as <-. exact Hv.
      * exact (H i p c Hp Hc).
    + intros H. rewrite (H 0 prev cur eq_refl eq_refl). apply IH.
      intros i p c Hp Hc. exact (H (S i) p c Hp Hc).
Qed.

Lemma exact_links_other (rest : list Exact.Block) :
  forall (prev : Exact.Block) (r : Exact.result bool),
    r <> Exact.Ok true ->
    (Exact.links prev rest = r <->
     exists i : nat, first_failing_pair (prev :: rest) i r).
Proof.
  induction rest as [|cur rest IH]; intros prev r Hr.
  - split.
    + intros H. cbn in H. congruence.
    + intros (i & p & c & _ & Hc & _). destruct i; discriminate.
  - rewrite exact_links_step.
    destruct (Exact.validate_block cur prev) as [[|]|e|] eqn:Hv.
    + rewrite (IH cur r Hr). split.
      * intros (i & p & c & Hp & Hc & Hval & Hlt). exists (S i), p, c.
        split; [exact Hp|]. split; [exact Hc|]. split; [exact Hval|].
        intros [|j] p' c' Hj Hp' Hc'.
        -- injection Hp' as <-. injection Hc' as <-. exact Hv.
        -- apply (Hlt j p' c'); [lia|exact Hp'|exact Hc'].
      * intros ([|i] & p & c & Hp & Hc & Hval & Hlt).
        -- injection Hp as <-. injection Hc as <-. congruence.
        -- exists i, p, c. split; [exact Hp|]. split; [exact Hc|].
           split; [exact Hval|]. intros j p' c' Hj Hp' Hc'.
           apply (Hlt (S j) p' c'); [lia|exact Hp'|exact Hc'].
    + split.
      * intros <-. exists 0, prev, cur. split; [reflexivity|].
        split; [reflexivity|]. split; [exact Hv|]. intros j p' c' Hj. lia.
      * intros ([|i] & p & c & Hp & Hc & Hval & Hlt).
        -- injection Hp as <-. injection Hc as <-. congruence.
        -- rewrite (Hlt 0 prev cur) in Hv by (reflexivity || lia).
           discriminate.
    + split.
      * intros <-. exists 0, prev, cur. split; [reflexivity|].
        split; [reflexivity|]. split; [exact Hv|]. intros j p' c' Hj. lia.
      * intros ([|i] & p & c & Hp & Hc & Hval & Hlt).
        -- injection Hp as <-. injection Hc as <-. congruence.
        -- rewrite (Hlt 0 prev cur) in Hv by (reflexivity || lia).
           discriminate.
    + exfalso. exact (exact_validate_block_fuel _ _ Hv).
Qed.

Lemma exact_verdict_true (c : list Exact.Block) :
  Exact.verdict c = Exact.Ok true <-> all_pairs_pass c.
Proof.
  destruct c as [|first rest]; [|apply exact_links_true].
  split; [|reflexivity]. intros _ i p q Hp. discriminate.
Qed.

Lemma exact_verdict_other (c : list Exact.Block) (r : Exact.result bool) :
  r <> Exact.Ok true ->
  (Exact.verdict c = r <-> exists i : nat, first_failing_pair c i r).
Proof.
  intros Hr. destruct c as [|first rest]; [|apply exact_links_other; exact Hr].
  split.
  - intros H. cbn in H. congruence.
  - intros (i & p & q & Hp & _). discriminate.
Qed.

Lemma pystr_eqb_eq (s1 s2 : Exact.pystr) :
  Exact.pystr_eqb s1 s2 = true <-> s1 = s2.
Proof.
  revert s2. induction s1 as [|c1 s1 IH]; intros [|c2 s2]; cbn;
    try (split; [discriminate|discriminate]); [split; reflexivity|].
  rewrite andb_true_iff, N.eqb_eq, IH. split.
  - intros [-> ->]. reflexivity.
  - intros H. injection H as -> ->. split; reflexivity.
Qed.

Lemma pystr_eqb_refl (s : Exact.pystr) : Exact.pystr_eqb s s = true.
Proof. apply pystr_eqb_eq. reflexivity. Qed.

Lemma pystr_eqb_neq (s1 s2 : Exact.pystr) :
  s1 <> s2 -> Exact.pystr_eqb s1 s2 = false.
Proof.
  intros H. destruct (Exact.pystr_eqb s1 s2) eqn:E; [|reflexivity].
  apply pystr_eqb_eq in E. contradiction.
Qed.

(** A block passes [validate_block] exactly when its previous hash is the
    computed hash of the block before it and its work test is computed
    and passes. *)
Lemma exact_validate_block_true (block previous_block : Exact.Block) :
  Exact.validate_block block previous_block = Exact.Ok true <->
  Exact._hash previous_block = Exact.Ok (Exact.previous_hash block)
  /\ Exact.work_test (Exact.proof block) (Exact.proof previous_block)
       (Exact.index block) (Exact.data block) = Exact.Ok true.
Proof.
  rewrite exact_validate_block_eq.
  destruct (Exact._hash previous_block) as [h|e|] eqn:Hh.
  - destruct (Exact.pystr_eqb (Exact.previous_hash block) h) eqn:E.
    + apply pystr_eqb_eq in E. subst h. split; [intros H; split; [reflexivity|exact H]|].
      intros [_ H]. exact H.
    + split; [discriminate|]. intros [H _]. injection H as ->.
      rewrite pystr_eqb_refl in E. discriminate.
  - split; [discriminate|]. intros [H _]. discriminate.
  - split; [discriminate|]. intros [H _]. discriminate.
Qed.

Lemma exact_least_proof_unique (pp idx : Z) (d : Exact.pystr) (p q : Z) :
  Exact.least_proof pp idx d p -> Exact.least_proof pp idx d q -> p = q.
Proof.
  intros (Hp1 & Hp & Hplt) (Hq1 & Hq & Hqlt).
  destruct (Z.lt_trichotomy p q) as [H|[H|H]]; [|exact H|].
  - rewrite (Hqlt p) in Hp by lia. discriminate.
  - rewrite (Hplt q) in Hq by lia. discriminate.
Qed.

Lemma proof_of_work_parts (fuel : nat) (previous_proof index : Z)
    (data : Exact.pystr) :
  (forall p : Z,
      Exact._proof_of_work fuel previous_proof index data = Exact.Ok p <->
      (p <= Z.of_nat fuel)%Z
      /\ Exact.least_proof previous_proof index data p)
  /\ (forall e : Exact.exn,
      Exact._proof_of_work fuel previous_proof index data = Exact.Raise e <->
      exists q : Z,
        (1 <= q <= Z.of_nat fuel)%Z
        /\ Exact.work_test q previous_proof index data = Exact.Raise e
        /\ forall q' : Z, (1 <= q' < q)%Z ->
             Exact.work_test q' previous_proof index data = Exact.Ok false)
  /\ (Exact._proof_of_work fuel previous_proof index data = Exact.OutOfFuel <->
      forall q : Z, (1 <= q <= Z.of_nat fuel)%Z ->
        Exact.work_test q previous_proof index data = Exact.Ok false).
Proof.
  unfold Exact._proof_of_work.
  split; [|split].
  - intros p. rewrite exact_loop_ok. unfold Exact.least_proof. split.
    + intros (Hr & Hp & Hlt). split; [lia|]. split; [lia|].
      split; [exact Hp|exact Hlt].
    + intros (Hr & H1 & Hp & Hlt). split; [lia|]. split; [exact Hp|exact Hlt].
  - intros e. rewrite exact_loop_raise. split.
    + intros (q & Hr & Hq & Hlt). exists q. split; [lia|].
      split; [exact Hq|exact Hlt].
    + intros (q & Hr & Hq & Hlt). exists q. split; [lia|].
      split; [exact Hq|exact Hlt].
  - rewrite exact_loop_out_of_fuel. split.
    + intros H q Hq. apply H. lia.
    + intros H q Hq. apply H. lia.
Qed.

(** ** The exact class: what the calls raise and return *)

(** X3. [_proof_of_work] within [fuel] iterations, with the exceptions of
    its conversions. It returns [p] exactly when [p] is at most [fuel],
    passes the work test, and every candidate from 1 to [p - 1] is
    computed and fails it. It raises [e] exactly when the work test of
    some candidate [q] up to [fuel] raises [e] after every earlier
    candidate failed: [ValueError] when [q^2 - previous_proof^2 + index]
    has more than 4300 digits, else [UnicodeEncodeError] when the data
    holds a surrogate. It is still searching after [fuel] iterations
    exactly when every candidate from 1 to [fuel] fails. *)
Theorem proof_of_work_outcomes (fuel : nat) (previous_proof index : Z)
    (data : Exact.pystr) :
  let work q := Exact.work_test q previous_proof index data in
  (forall p : Z,
      Exact._proof_of_work fuel previous_proof index data = Exact.Ok p <->
      (p <= Z.of_nat fuel)%Z
      /\ Exact.least_proof previous_proof index data p)
  /\ (forall e : Exact.exn,
      Exact._proof_of_work fuel previous_proof index data = Exact.Raise e <->
      exists q : Z,
        (1 <= q <= Z.of_nat fuel)%Z /\ work q = Exact.Raise e
        /\ forall q' : Z, (1 <= q' < q)%Z -> work q' = Exact.Ok false)
  /\ (Exact._proof_of_work fuel previous_proof index data = Exact.OutOfFuel <->
      forall q : Z, (1 <= q <= Z.of_nat fuel)%Z -> work q = Exact.Ok false)
  /\ (forall (q : Z) (e : Exact.exn),
      work q = Exact.Raise e <->
      (e = Exact.ValueError
       /\ Exact.int_max_str_digits
          < Exact.digits (q ^ 2 - previous_proof ^ 2 + index))
      \/ (e = Exact.UnicodeEncodeError
          /\ Exact.digits (q ^ 2 - previous_proof ^ 2 + index)
             <= Exact.int_max_str_digits
          /\ Exact.has_surrogate data)).
Proof.
  intros work.
  destruct (proof_of_work_parts fuel previous_proof index data)
    as (Hok & Hraise & Hfuel).
  split; [exact Hok|]. split; [exact Hraise|]. split; [exact Hfuel|].
  intros q e. apply exact_work_test_raise_iff.
Qed.

(** X1. The outcome of [is_chain_valid]. It reads no index out of range.
    It returns [True] exactly when every block passes [validate_block]
    against the block before it. Otherwise the first pair of neighbours
    that does not pass decides: [is_chain_valid] returns [False] when
    [validate_block] returns [False] on that pair, and raises what
    [validate_block] raises on it, which is a [ValueError] of [str] or
    [json.dumps] or a [UnicodeEncodeError] of [str.encode]. *)
Theorem is_chain_valid_outcomes (self : Exact.Blockchain) :
  (Exact.is_chain_valid self = Exact.Ok true <->
   all_pairs_pass (Exact.chain self))
  /\ (forall r : Exact.result bool, r <> Exact.Ok true ->
      (Exact.is_chain_valid self = r <->
       exists i : nat, first_failing_pair (Exact.chain self) i r))
  /\ (forall e : Exact.exn,
      Exact.is_chain_valid self = Exact.Raise e -> conversion_error e)
  /\ Exact.is_chain_valid self <> Exact.OutOfFuel.
Proof.
  rewrite exact_is_chain_valid_verdict.
  split; [apply exact_verdict_true|].
  split; [intros r Hr; apply exact_verdict_other; exact Hr|]. split.
  - intros e H. apply exact_verdict_other in H; [|discriminate].
    destruct H as (i & p & q & _ & _ & Hv & _).
    exact (exact_validate_block_raises _ _ _ Hv).
  - intros H. apply exact_verdict_other in H; [|discriminate].
    destruct H as (i & p & q & _ & _ & Hv & _).
    exact (exact_validate_block_fuel _ _ Hv).
Qed.

(** ** The exact class: a changed block *)

Section Tampering.

Variables (c : list Exact.Block) (i : nat) (prev b b' : Exact.Block).
Hypothesis Hall : all_pairs_pass c.
Hypothesis Hprev : c !! i = Some prev.
Hypothesis Hb : c !! S i = Some b.

Local Abbreviation T := (<[S i := b']> c).







End Tampering.


(** ** The exact class: mining *)

(** On a chain that passes, what one more block at the end changes is its
    own pair. *)
Lemma exact_verdict_snoc (c : list Exact.Block) (l block : Exact.Block) :
  all_pairs_pass c -> last c = Some l ->
  Exact.validate_block block l = Exact.Ok true ->
  all_pairs_pass (c ++ [block]).
Proof.
  intros Hall Hl Hv j p q Hp Hq.
  rewrite last_lookup in Hl.
  assert (S j < length (c ++ [block])) as Hlt
    by (apply lookup_lt_Some in Hq; exact Hq).
  rewrite length_app in Hlt. cbn [length] in Hlt.
  destruct (Nat.eq_dec (S j) (length c)) as [E|Hne].
  - rewrite lookup_app_l in Hp by lia.
    rewrite lookup_app_r in Hq by lia.
    replace (S j - length c) with 0 in Hq by lia. injection Hq as <-.
    replace (pred (length c)) with j in Hl by lia.
    rewrite Hl in Hp. injection Hp as <-. exact Hv.
  - rewrite lookup_app_l in Hp by lia. rewrite lookup_app_l in Hq by lia.
    exact (Hall j p q Hp Hq).
Qed.

Lemma exact_mine_block_empty (fuel : nat) (now data : Exact.pystr)
    (self : Exact.Blockchain) :
  Exact.chain self = [] ->
  Exact.mine_block fuel now data self = Exact.Raise Exact.IndexError.
Proof.
  intros H. unfold Exact.mine_block, Exact.get_previous_block. rewrite H.
  reflexivity.
Qed.

Lemma exact_mine_block_eq (fuel : nat) (now data : Exact.pystr)
    (self : Exact.Blockchain) (old_last : Exact.Block) :
  last (Exact.chain self) = Some old_last ->
  Exact.mine_block fuel now data self =
  let index := (Z.of_nat (length (Exact.chain self)) + 1)%Z in
  match Exact._proof_of_work fuel (Exact.proof old_last) index data with
  | Exact.Ok q =>
      match Exact._hash old_last with
      | Exact.Ok h =>
          let block := Exact.mkBlock index now data q h in
          Exact.Ok (block,
                    Exact.mkBlockchain (Exact.chain self ++ [block])
                      (Exact.stdout self))
      | Exact.Raise e => Exact.Raise e
      | Exact.OutOfFuel => Exact.OutOfFuel
      end
  | Exact.Raise e => Exact.Raise e
  | Exact.OutOfFuel => Exact.OutOfFuel
  end.
Proof.
  intros Hl. unfold Exact.mine_block, Exact.get_previous_block. rewrite Hl.
  cbn [Exact.bind].
  destruct (Exact._proof_of_work _ _ _ _) as [q|e|]; cbn [Exact.bind];
    reflexivity.
Qed.

(** C7, amended. [mine_block] on a ledger with a last block, for any
    data. It returns exactly when the hash of the old last block is
    computed and the search reaches a proof [q] within its budget, every
    candidate before [q] being computed and failing the work test; the
    returned block then has the index, timestamp, data, proof and previous
    hash stated. Whenever it returns, the chain is one block longer, its
    last block is the returned one, whose index is the old length plus 1
    and whose previous hash is the hash of the old last block, and a chain
    that [is_chain_valid] accepted is still accepted. It raises only what
    a conversion raises: what the search raises, or else the [ValueError]
    of the hash of the old last block. It is still searching after [fuel]
    iterations exactly when every candidate from 1 to [fuel] fails. *)
Theorem mine_block_appends (fuel : nat) (now data : Exact.pystr)
    (self : Exact.Blockchain) (old_last : Exact.Block) :
  last (Exact.chain self) = Some old_last ->
  let index := (Z.of_nat (length (Exact.chain self)) + 1)%Z in
  let work q := Exact.work_test q (Exact.proof old_last) index data in
  (forall (block : Exact.Block) (self' : Exact.Blockchain),
      Exact.mine_block fuel now data self = Exact.Ok (block, self') <->
      exists (q : Z) (h : Exact.pystr),
        Exact.least_proof (Exact.proof old_last) index data q
        /\ (q <= Z.of_nat fuel)%Z
        /\ Exact._hash old_last = Exact.Ok h
        /\ block = Exact.mkBlock index now data q h
        /\ self' = Exact.mkBlockchain (Exact.chain self ++ [block])
                     (Exact.stdout self))
  /\ (forall (block : Exact.Block) (self' : Exact.Blockchain),
      Exact.mine_block fuel now data self = Exact.Ok (block, self') ->
      length (Exact.chain self') = length (Exact.chain self) + 1
      /\ last (Exact.chain self') = Some block
      /\ Exact.index block = index
      /\ Exact._hash old_last = Exact.Ok (Exact.previous_hash block)
      /\ (Exact.is_chain_valid self = Exact.Ok true ->
          Exact.is_chain_valid self' = Exact.Ok true))
  /\ (forall e : Exact.exn,
      Exact.mine_block fuel now data self = Exact.Raise e <->
      (exists q : Z,
          (1 <= q <= Z.of_nat fuel)%Z /\ work q = Exact.Raise e
          /\ forall q' : Z, (1 <= q' < q)%Z -> work q' = Exact.Ok false)
      \/ (exists q : Z,
          Exact.least_proof (Exact.proof old_last) index data q
          /\ (q <= Z.of_nat fuel)%Z
          /\ Exact._hash old_last = Exact.Raise e))
  /\ (forall e : Exact.exn,
      Exact.mine_block fuel now data self = Exact.Raise e ->
      conversion_error e)
  /\ (Exact.mine_block fuel now data self = Exact.OutOfFuel <->
      forall q : Z, (1 <= q <= Z.of_nat fuel)%Z -> work q = Exact.Ok false).
Proof.
  intros Hl index work. subst work. cbv beta.
  pose proof (proof_of_work_parts fuel (Exact.proof old_last) index data)
    as (Hok & Hraise & Hfuel).
  assert (Hinv : forall (block : Exact.Block) (self' : Exact.Blockchain),
      Exact.mine_block fuel now data self = Exact.Ok (block, self') <->
      exists (q : Z) (h : Exact.pystr),
        Exact.least_proof (Exact.proof old_last) index data q
        /\ (q <= Z.of_nat fuel)%Z
        /\ Exact._hash old_last = Exact.Ok h
        /\ block = Exact.mkBlock index now data q h
        /\ self' = Exact.mkBlockchain (Exact.chain self ++ [block])
                     (Exact.stdout self)).
  { intros block self'. rewrite (exact_mine_block_eq _ _ _ _ _ Hl).
    fold index. cbv zeta.
    destruct (Exact._proof_of_work fuel _ index data) as [q|e|] eqn:Hq.
    - destruct (proj1 (Hok q) eq_refl) as [Hle Hleast].
      destruct (Exact._hash old_last) as [h|e|] eqn:Hh.
      + split.
        * intros H. injection H as <- <-. exists q, h.
          repeat (split; [assumption || reflexivity|]). reflexivity.
        * intros (q' & h' & Hleast' & _ & Hh' & -> & ->).
          injection Hh' as <-.
          rewrite (exact_least_proof_unique _ _ _ _ _ Hleast' Hleast).
          reflexivity.
      + split; [discriminate|]. intros (q' & h' & _ & _ & Hh' & _).
        discriminate.
      + split; [discriminate|]. intros (q' & h' & _ & _ & Hh' & _).
        discriminate.
    - split; [discriminate|]. intros (q' & h' & Hleast' & Hle' & _).
      pose proof (proj2 (Hok q') (conj Hle' Hleast')). congruence.
    - split; [discriminate|]. intros (q' & h' & Hleast' & Hle' & _).
      pose proof (proj2 (Hok q') (conj Hle' Hleast')). congruence. }
  split; [exact Hinv|]. split; [|split; [|split]].
  - intros block self' H.
    apply Hinv in H as (q & h & Hleast & Hle & Hh & -> & ->).
    cbn [Exact.chain Exact.index Exact.previous_hash].
    split; [rewrite length_app; reflexivity|].
    split; [apply last_snoc|]. split; [reflexivity|]. split; [exact Hh|].
    rewrite !exact_is_chain_valid_verdict, !exact_verdict_true.
    cbn [Exact.chain]. intros Hv.
    apply (exact_verdict_snoc _ old_last); [exact Hv|exact Hl|].
    apply exact_validate_block_true.
    cbn [Exact.previous_hash Exact.proof Exact.index Exact.data].
    split; [exact Hh|]. destruct Hleast as (_ & Hw & _). exact Hw.
  - intros e. rewrite (exact_mine_block_eq _ _ _ _ _ Hl). fold index.
    cbv zeta.
    destruct (Exact._proof_of_work fuel _ index data) as [q|e'|] eqn:Hq.
    + destruct (proj1 (Hok q) eq_refl) as [Hle Hleast].
      destruct (Exact._hash old_last) as [h|e'|] eqn:Hh.
      * split; [discriminate|].
        intros [(q' & Hr & Hw' & Hlt)|(q' & _ & _ & Hh')]; [|discriminate].
        exfalso.
        pose proof (proj2 (Hraise e) (ex_intro _ q' (conj Hr (conj Hw' Hlt)))).
        discriminate.
      * split.
        -- intros H. injection H as <-. right. exists q.
           split; [exact Hleast|]. split; [exact Hle|reflexivity].
        -- intros [(q' & Hr & Hw' & Hlt)|(q' & _ & _ & Hh')].
           ++ exfalso.
              pose proof (proj2 (Hraise e)
                            (ex_intro _ q' (conj Hr (conj Hw' Hlt)))).
              discriminate.
           ++ injection Hh' as ->. reflexivity.
      * exfalso. exact (exact_hash_fuel _ Hh).
    + split.
      * intros H. injection H as <-. left. apply Hraise. reflexivity.
      * intros [Hex|(q' & Hleast' & Hle' & _)].
        -- apply Hraise in Hex. congruence.
        -- pose proof (proj2 (Hok q') (conj Hle' Hleast')). congruence.
    + split; [discriminate|].
      intros [Hex|(q' & Hleast' & Hle' & _)].
      * apply Hraise in Hex. congruence.
      * pose proof (proj2 (Hok q') (conj Hle' Hleast')). congruence.
  - intros e. rewrite (exact_mine_block_eq _ _ _ _ _ Hl). fold index.
    cbv zeta.
    destruct (Exact._proof_of_work fuel _ index data) as [q|e'|] eqn:Hq.
    + destruct (Exact._hash old_last) as [h|e'|] eqn:Hh; try discriminate.
      intros H. injection H as <-. exact (exact_hash_raises _ _ Hh).
    + intros H. injection H as <-.
      destruct (proj1 (Hraise e') eq_refl) as (q & _ & Hw & _).
      exact (exact_work_test_raises _ _ _ _ _ Hw).
    + discriminate.
  - rewrite (exact_mine_block_eq _ _ _ _ _ Hl). fold index. cbv zeta.
    rewrite <- Hfuel.
    destruct (Exact._proof_of_work fuel _ index data) as [q|e'|] eqn:Hq.
    + destruct (Exact._hash old_last) as [h|e'|] eqn:Hh.
      * split; discriminate.
      * split; discriminate.
      * exfalso. exact (exact_hash_fuel _ Hh).
    + split; discriminate.
    + split; reflexivity.
Qed.

(** ** The exact class: exceptions of the calls *)

Lemma exact_block_eqb_refl (b : Exact.Block) : Exact.block_eqb b b = true.
Proof.
  unfold Exact.block_eqb. rewrite !Z.eqb_refl, !pystr_eqb_refl. reflexivity.
Qed.

Lemma exact_block_eqb_eq (b1 b2 : Exact.Block) :
  Exact.block_eqb b1 b2 = true <-> b1 = b2.
Proof.
  split; [|intros ->; apply exact_block_eqb_refl].
  destruct b1, b2. unfold Exact.block_eqb. cbn.
  rewrite !andb_true_iff, !Z.eqb_eq, !pystr_eqb_eq.
  intros [[[[-> ->] ->] ->] ->]. reflexivity.
Qed.

(** The block that the scan finds is in the list, so [list.remove] drops
    it and does not raise. *)
Lemma exact_find_block_remove (p : Z) (c : list Exact.Block) :
  forall b : Exact.Block,
    Exact.find_block p c = Some b ->
    exists k : nat,
      c !! k = Some b /\ Exact.proof b = p
      /\ (forall (j : nat) (b' : Exact.Block),
             j < k -> c !! j = Some b' -> Exact.proof b' <> p)
      /\ Exact.list_remove b c = Exact.Ok (delete k c).
Proof.
  induction c as [|y c IH]; intros b H; [discriminate|].
  cbn [Exact.find_block] in H.
  destruct (Z.eqb_spec (Exact.proof y) p) as [Hy|Hy].
  - injection H as <-. exists 0. split; [reflexivity|]. split; [assumption|].
    split; [intros; lia|]. cbn [Exact.list_remove].
    rewrite exact_block_eqb_refl. reflexivity.
  - destruct (IH b H) as (k & Hk & Hp & Hj & Hr). exists (S k).
    split; [exact Hk|]. split; [exact Hp|]. split.
    + intros [|j] b' Hlt Hb'.
      * injection Hb' as <-. assumption.
      * apply (Hj j b'); [lia|exact Hb'].
    + cbn [Exact.list_remove]. destruct (Exact.block_eqb y b) eqn:E.
      * apply exact_block_eqb_eq in E. subst. contradiction.
      * rewrite Hr. reflexivity.
Qed.

Lemma exact_repair_loop_raises (fuel : nat) (n : nat) :
  forall (A : list Exact.Block) (e : Exact.exn),
    n = 0 \/ n < length A ->
    Exact.repair_loop fuel A (range_down n 0) = Exact.Raise e ->
    conversion_error e.
Proof.
  induction n as [|n IH]; intros A e Hn; [discriminate|].
  destruct Hn as [Hn|Hn]; [discriminate|].
  rewrite range_down_S. cbn [Exact.repair_loop]. unfold Exact.getitem.
  replace (S n - 1) with n by lia.
  destruct (lookup_lt_is_Some_2 A (S n) Hn) as [cur ->].
  destruct (lookup_lt_is_Some_2 A n) as [prev ->]; [lia|].
  cbn [Exact.bind].
  destruct (Exact._hash prev) as [h|e'|] eqn:Hh; cbn [Exact.bind].
  - destruct (Exact._proof_of_work fuel _ _ _) as [p|e'|] eqn:Hw;
      cbn [Exact.bind].
    + apply IH. right. rewrite length_insert. lia.
    + intros H. injection H as <-.
      apply proof_of_work_parts in Hw as (q & _ & Hq & _).
      exact (exact_work_test_raises _ _ _ _ _ Hq).
    + discriminate.
  - intros H. injection H as <-. exact (exact_hash_raises _ _ Hh).
  - discriminate.
Qed.

(** X2. The exceptions of the four calls. [mine_block] raises
    [IndexError] exactly when the chain is empty, and [clear] raises
    exactly then, and nothing else. In [delete_block], [list.remove]
    always finds the block of the scan, and the repair loop reads no index
    out of range: the call raises only what a conversion raises while a
    block is sealed again, a [ValueError] of [str] or [json.dumps] or a
    [UnicodeEncodeError] of [str.encode]. [is_chain_valid] likewise raises
    only what a conversion raises. *)
Theorem exceptions_of_the_calls (fuel : nat) (now data : Exact.pystr) (p : Z)
    (self : Exact.Blockchain) :
  (Exact.mine_block fuel now data self = Exact.Raise Exact.IndexError <->
   Exact.chain self = [])
  /\ (forall e : Exact.exn,
      Exact.clear self = Exact.Raise e <->
      Exact.chain self = [] /\ e = Exact.IndexError)
  /\ (forall block : Exact.Block,
      Exact.find_block p (Exact.chain self) = Some block ->
      exists k : nat,
        Exact.chain self !! k = Some block
        /\ Exact.list_remove block (Exact.chain self)
           = Exact.Ok (delete k (Exact.chain self)))
  /\ (forall e : Exact.exn,
      Exact.delete_block fuel p self = Exact.Raise e -> conversion_error e)
  /\ (forall e : Exact.exn,
      Exact.is_chain_valid self = Exact.Raise e -> conversion_error e).
Proof.
  split; [|split; [|split; [|split]]].
  - split; [|apply exact_mine_block_empty].
    destruct (last (Exact.chain self)) as [old|] eqn:Hl.
    + rewrite (exact_mine_block_eq _ _ _ _ _ Hl). cbv zeta.
      destruct (Exact._proof_of_work fuel _ _ _) as [q|e|] eqn:Hq.
      * destruct (Exact._hash old) as [h|e|] eqn:Hh; try discriminate.
        intros H. injection H as ->. apply exact_hash_raises in Hh.
        destruct Hh; discriminate.
      * intros H. injection H as ->.
        apply proof_of_work_parts in Hq as (q & _ & Hw & _).
        apply exact_work_test_raises in Hw. destruct Hw; discriminate.
      * discriminate.
    + intros _. apply last_None. exact Hl.
  - intros e. unfold Exact.clear, Exact.getitem.
    destruct (Exact.chain self) as [|first rest].
    + cbn. split; [intros H; injection H as <-; split; reflexivity|].
      intros [_ ->]. reflexivity.
    + cbn. split; [discriminate|]. intros [H _]. discriminate.
  - intros block Hf.
    destruct (exact_find_block_remove p _ block Hf) as (k & Hk & _ & _ & Hr).
    exists k. split; assumption.
  - intros e. unfold Exact.delete_block.
    destruct (Exact.find_block p (Exact.chain self)) as [b|] eqn:Hf;
      [|discriminate].
    destruct (exact_find_block_remove p _ b Hf) as (k & Hk & _ & _ & ->).
    cbn [Exact.bind].
    destruct (Exact.repair_loop fuel _ _) as [c2|e'|] eqn:Hr;
      cbn [Exact.bind]; try discriminate.
    intros H. injection H as <-. revert Hr. apply exact_repair_loop_raises.
    destruct (length (delete k (Exact.chain self))) as [|m];
      [left; reflexivity|]. right. lia.
  - intros e H. rewrite exact_is_chain_valid_verdict in H.
    apply exact_verdict_other in H; [|discriminate].
    destruct H as (i & x & y & _ & _ & Hv & _).
    exact (exact_validate_block_raises _ _ _ Hv).
Qed.

(** ** The exact class: the text that [_hash] digests *)

Lemma json_escape_app (s1 s2 : Exact.pystr) :
  Exact.json_escape (s1 ++ s2) = Exact.json_escape s1 ++ Exact.json_escape s2.
Proof.
  induction s1 as [|c s1 IH]; [reflexivity|].
  cbn [app Exact.json_escape]. rewrite IH, app_assoc. reflexivity.
Qed.

Lemma json_escape_char_high (c : N) :
  (0x10000 <= c)%N ->
  Exact.json_escape_char c =
  Exact.u_escape (0xD800 + ((c - 0x10000) / 0x400) mod 0x400)
  ++ Exact.u_escape (0xDC00 + (c - 0x10000) mod 0x400).
Proof.
  intros Hc. unfold Exact.json_escape_char.
  repeat match goal with
  | |- context [(c =? ?k)%N] => destruct (N.eqb_spec c k) as [E|_]; [lia|]
  end.
  destruct (N.leb_spec c 126); [lia|]. rewrite andb_false_r.
  destruct (N.ltb_spec c 0x10000); [lia|]. reflexivity.
Qed.

Lemma json_escape_char_surrogate (c : N) :
  Exact.surrogate c -> Exact.json_escape_char c = Exact.u_escape c.
Proof.
  unfold Exact.surrogate. intros Hc. unfold Exact.json_escape_char.
  repeat match goal with
  | |- context [(c =? ?k)%N] => destruct (N.eqb_spec c k) as [E|_]; [lia|]
  end.
  destruct (N.leb_spec c 126); [lia|]. rewrite andb_false_r.
  destruct (N.ltb_spec c 0x10000); [|lia]. reflexivity.
Qed.

Lemma surrogate_pair_surrogates (c : N) :
  (0x10000 <= c <= 0x10FFFF)%N ->
  (((c - 0x10000) / 0x400) mod 0x400 = (c - 0x10000) / 0x400)%N
  /\ Exact.surrogate (0xD800 + (c - 0x10000) / 0x400)%N
  /\ Exact.surrogate (0xDC00 + (c - 0x10000) mod 0x400)%N
  /\ c <> (0xD800 + (c - 0x10000) / 0x400)%N.
Proof.
  intros Hc.
  assert (Hdiv : ((c - 0x10000) / 0x400 < 0x400)%N).
  { apply N.Div0.div_lt_upper_bound. lia. }
  assert (Hmod : ((c - 0x10000) mod 0x400 < 0x400)%N)
    by (apply N.mod_lt; discriminate).
  split; [apply N.mod_small; exact Hdiv|]. unfold Exact.surrogate.
  remember ((c - 0x10000) / 0x400)%N as q eqn:Eq. clear Eq.
  remember ((c - 0x10000) mod 0x400)%N as r eqn:Er. clear Er.
  repeat split; lia.
Qed.

(** X6. [_hash] does not tell a code point above U+FFFF from its two
    surrogates: [json.dumps] writes both as the same twelve characters.
    Two blocks that differ only there, in the data, are different blocks
    with the same serialization and the same hash, so the previous hash of
    the next block does not bind the data of a block up to a SHA-256
    collision. *)
Theorem hash_confuses_surrogate_pair (b : Exact.Block) (s1 s2 : Exact.pystr)
    (c : N) :
  (0x10000 <= c <= 0x10FFFF)%N ->
  let b1 := set_data (s1 ++ [c] ++ s2) b in
  let b2 := set_data (s1 ++ surrogate_pair c ++ s2) b in
  b1 <> b2
  /\ Exact.json_dumps b1 = Exact.json_dumps b2
  /\ hashed_bytes b1 = hashed_bytes b2
  /\ Exact._hash b1 = Exact._hash b2.
Proof.
  intros Hc b1 b2.
  destruct (surrogate_pair_surrogates c Hc) as (Hsmall & Hhi & Hlo & Hne).
  assert (Hdump : Exact.json_dumps b1 = Exact.json_dumps b2).
  { unfold b1, b2, set_data, Exact.json_dumps.
    cbn [Exact.index Exact.proof Exact.data Exact.timestamp
         Exact.previous_hash].
    replace (Exact.json_str (s1 ++ surrogate_pair c ++ s2))
      with (Exact.json_str (s1 ++ [c] ++ s2)); [reflexivity|].
    unfold Exact.json_str. rewrite !json_escape_app. do 3 f_equal.
    unfold surrogate_pair. cbn [Exact.json_escape].
    rewrite (json_escape_char_high c) by lia.
    rewrite Hsmall.
    rewrite (json_escape_char_surrogate _ Hhi).
    rewrite (json_escape_char_surrogate _ Hlo).
    rewrite !app_nil_r. reflexivity. }
  split; [|split; [exact Hdump|split]].
  - unfold b1, b2, set_data. intros H. injection H as H.
    apply app_inv_head in H. unfold surrogate_pair in H. cbn [app] in H.
    injection H as H _. rewrite Hsmall in H. contradiction.
  - unfold hashed_bytes. rewrite Hdump. reflexivity.
  - rewrite !exact_hash_unfold, Hdump. reflexivity.
Qed.

(** ** The digits of a power of ten *)

Lemma string_length_append (s1 s2 : string) :
  String.length (s1 ++ s2)%string = String.length s1 + String.length s2.
Proof. induction s1 as [|c s1 IH]; cbn; [reflexivity|]. rewrite IH. reflexivity. Qed.

Lemma digits_nonneg (n : Z) :
  (0 <= n)%Z -> Exact.digits n = String.length (str_of_int n).
Proof.
  intros Hn. unfold Exact.digits, str_of_int.
  destruct (Z.ltb_spec n 0); [lia|reflexivity].
Qed.


Lemma digits_tenfold (n : Z) :
  (0 < n)%Z -> Exact.digits (10 * n) = S (Exact.digits n).
Proof.
  intros Hn. rewrite !digits_nonneg by lia.
  rewrite (str_of_int_tenfold n Hn), string_length_append. cbn. lia.
Qed.


(** [10 ^ k] has [k + 1] digits. *)
Lemma digits_pow10 (k : nat) : Exact.digits (10 ^ Z.of_nat k) = S k.
Proof.
  induction k as [|k IH]; [reflexivity|].
  rewrite Nat2Z.inj_succ, Z.pow_succ_r by lia.
  rewrite digits_tenfold by (apply Z.pow_pos_nonneg; lia).
  rewrite IH. reflexivity.
Qed.

(** [str] raises on every power of ten from [10 ^ 4300] on, and on none
    below. *)
Lemma str_pow10 (k : nat) :
  Exact.str (10 ^ Z.of_nat k) = Exact.Raise Exact.ValueError <->
  Exact.int_max_str_digits <= k.
Proof.
  rewrite exact_str_raise_iff, digits_pow10. split.
  - intros [_ H]. lia.
  - intros H. split; [reflexivity|lia].
Qed.


(** ** The exact class on the concrete ledger *)

Example exact_sample_mined :
  Exact.mine_block 4 ExactSample.t1 ExactSample.d1 ExactSample.fresh
  = Exact.Ok (ExactSample.u1, ExactSample.ledger1)
  /\ Exact.mine_block 9 ExactSample.t2 ExactSample.d2 ExactSample.ledger1
     = Exact.Ok (ExactSample.u2, ExactSample.ledger2)
  /\ Exact.is_chain_valid ExactSample.ledger2 = Exact.Ok true.
Proof.
  split; [vm_compute; reflexivity|]. split; vm_compute; reflexivity.
Qed.



Lemma mine_block_appends_witness :
  Exact.mine_block 9 ExactSample.t2 ExactSample.d2 ExactSample.ledger1
  = Exact.Ok (ExactSample.u2, ExactSample.ledger2)
  /\ length (Exact.chain ExactSample.ledger2)
     = length (Exact.chain ExactSample.ledger1) + 1
  /\ last (Exact.chain ExactSample.ledger2) = Some ExactSample.u2
  /\ Exact.index ExactSample.u2 = 3%Z
  /\ Exact._hash ExactSample.u1
     = Exact.Ok (Exact.previous_hash ExactSample.u2)
  /\ (Exact.is_chain_valid ExactSample.ledger1 = Exact.Ok true ->
      Exact.is_chain_valid ExactSample.ledger2 = Exact.Ok true).
Proof.
  assert (Exact.mine_block 9 ExactSample.t2 ExactSample.d2 ExactSample.ledger1
          = Exact.Ok (ExactSample.u2, ExactSample.ledger2)) as H
    by (vm_compute; reflexivity).
  split; [exact H|].
  exact (proj1 (proj2 (mine_block_appends 9 ExactSample.t2 ExactSample.d2
                         ExactSample.ledger1 ExactSample.u1 eq_refl))
           ExactSample.u2 ExactSample.ledger2 H).
Defined.

(** Against C7 as stated. On a fresh ledger, [mine_block] with the data
    '\ud800', a string of one surrogate, raises [UnicodeEncodeError] at
    the first candidate of the search, whatever the time spent. And
    [delete_block(1)] on a fresh ledger leaves an empty chain, on which
    [mine_block] raises [IndexError] for any data. In both cases no block
    is appended. *)
Lemma mine_block_raises :
  (forall fuel : nat,
      Exact.mine_block (S fuel) ExactSample.t1 [0xD800%N] ExactSample.fresh
      = Exact.Raise Exact.UnicodeEncodeError)
  /\ (forall fuel : nat,
      Exact.delete_block fuel 1 ExactSample.fresh
      = Exact.Ok (Exact.mkBlockchain [] ["!FAILED!"]))
  /\ (forall (fuel : nat) (data : Exact.pystr),
      Exact.mine_block fuel ExactSample.t1 data
        (Exact.mkBlockchain [] ["!FAILED!"])
      = Exact.Raise Exact.IndexError).
Proof.
  split; [|split].
  - intros fuel.
    rewrite (exact_mine_block_eq (S fuel) ExactSample.t1 [0xD800%N]
               ExactSample.fresh ExactSample.g0 eq_refl). cbv zeta.
    assert (Exact._proof_of_work (S fuel) (Exact.proof ExactSample.g0)
              (Z.of_nat (length (Exact.chain ExactSample.fresh)) + 1)
              [0xD800%N]
            = Exact.Raise Exact.UnicodeEncodeError) as ->; [|reflexivity].
    apply proof_of_work_parts. exists 1%Z. split; [lia|].
    split; [vm_compute; reflexivity|]. intros q Hq. lia.
  - intros fuel. reflexivity.
  - intros fuel data. apply exact_mine_block_empty. reflexivity.
Qed.

Lemma hash_confuses_surrogate_pair_witness :
  let b1 := set_data (Exact.of_ascii "pay " ++ [0x1F600%N] ++ []) ExactSample.u1 in
  let b2 :=
    set_data (Exact.of_ascii "pay " ++ [0xD83D%N; 0xDE00%N] ++ [])
      ExactSample.u1 in
  b1 <> b2
  /\ Exact.json_dumps b1 = Exact.json_dumps b2
  /\ hashed_bytes b1 = hashed_bytes b2
  /\ Exact._hash b1 = Exact._hash b2.
Proof.
  apply (hash_confuses_surrogate_pair ExactSample.u1 (Exact.of_ascii "pay ")
           [] 0x1F600%N).
  vm_compute. split; discriminate.
Defined.

(** ** The two classes agree where the first is defined

    On strings of code points up to U+00FF and on integers of at most
    4300 digits, the conversions of [Exact] return what the conversions
    of the first part return, and so do [_hash], the work test and
    [validate_block]. *)

Lemma of_ascii_app (s1 s2 : string) :
  Exact.of_ascii (s1 ++ s2)%string = Exact.of_ascii s1 ++ Exact.of_ascii s2.
Proof.
  unfold Exact.of_ascii. induction s1 as [|c s1 IH]; [reflexivity|].
  cbn. rewrite IH. reflexivity.
Qed.

Lemma of_ascii_inj (s1 s2 : string) :
  Exact.of_ascii s1 = Exact.of_ascii s2 -> s1 = s2.
Proof.
  unfold Exact.of_ascii. revert s2.
  induction s1 as [|c1 s1 IH]; intros [|c2 s2] H; try discriminate;
    [reflexivity|].
  cbn in H. injection H as Hc H. rewrite (IH s2 H).
  rewrite <- (ascii_N_embedding c1), <- (ascii_N_embedding c2), Hc.
  reflexivity.
Qed.

Lemma pystr_eqb_of_ascii (s1 s2 : string) :
  Exact.pystr_eqb (Exact.of_ascii s1) (Exact.of_ascii s2) = String.eqb s1 s2.
Proof.
  destruct (String.eqb_spec s1 s2) as [->|Hne]; [apply pystr_eqb_refl|].
  apply pystr_eqb_neq. intros H. apply Hne. exact (of_ascii_inj _ _ H).
Qed.

Lemma take_of_ascii (n : nat) : forall s : string,
  take n (Exact.of_ascii s) = Exact.of_ascii (substring 0 n s).
Proof.
  induction n as [|n IH]; intros [|c s]; try reflexivity.
  change (N_of_ascii c :: take n (Exact.of_ascii s)
          = N_of_ascii c :: Exact.of_ascii (substring 0 n s)).
  rewrite IH. reflexivity.
Qed.

Lemma starts_0000_of_ascii (h : string) :
  Exact.starts_0000 (Exact.of_ascii h) = String.eqb (slice4 h) "0000".
Proof.
  unfold Exact.starts_0000, slice4. rewrite take_of_ascii.
  apply pystr_eqb_of_ascii.
Qed.

Lemma encode_char_agrees (c : ascii) :
  Exact.encode_char (N_of_ascii c) = Exact.Ok (encode_char c).
Proof.
  destruct c as [[] [] [] [] [] [] [] []]; vm_compute; reflexivity.
Qed.

Lemma encode_agrees (s : string) :
  Exact.encode (Exact.of_ascii s) = Exact.Ok (encode s).
Proof.
  induction s as [|c s IH]; [reflexivity|].
  change (Exact.of_ascii (String c s))
    with (N_of_ascii c :: Exact.of_ascii s).
  cbn [Exact.encode encode]. rewrite encode_char_agrees, IH. reflexivity.
Qed.

Lemma json_escape_char_agrees (c : ascii) :
  Exact.json_escape_char (N_of_ascii c)
  = Exact.of_ascii (json_escape_char c).
Proof.
  destruct c as [[] [] [] [] [] [] [] []]; vm_compute; reflexivity.
Qed.

Lemma json_escape_agrees (s : string) :
  Exact.json_escape (Exact.of_ascii s) = Exact.of_ascii (json_escape s).
Proof.
  induction s as [|c s IH]; [reflexivity|].
  change (Exact.of_ascii (String c s))
    with (N_of_ascii c :: Exact.of_ascii s).
  cbn [Exact.json_escape json_escape].
  rewrite json_escape_char_agrees, IH, of_ascii_app. reflexivity.
Qed.

Lemma json_str_agrees (s : string) :
  Exact.json_str (Exact.of_ascii s) = Exact.of_ascii (json_str s).
Proof.
  unfold Exact.json_str, json_str. rewrite json_escape_agrees.
  change (String dquote (json_escape s ++ String dquote EmptyString))
    with (String dquote EmptyString
          ++ (json_escape s ++ String dquote EmptyString))%string.
  rewrite !of_ascii_app. reflexivity.
Qed.

Lemma json_key_agrees (k : string) :
  Exact.json_key k = Exact.of_ascii (json_key k).
Proof.
  unfold Exact.json_key, json_key. rewrite json_str_agrees, of_ascii_app.
  reflexivity.
Qed.

Lemma str_agrees (n : Z) :
  Exact.digits n <= Exact.int_max_str_digits ->
  Exact.str n = Exact.Ok (Exact.of_ascii (str_of_int n)).
Proof.
  intros H. unfold Exact.str.
  destruct (Nat.ltb_spec Exact.int_max_str_digits (Exact.digits n)); [lia|].
  reflexivity.
Qed.

Lemma json_dumps_agrees (b : Block) :
  Exact.digits (index b) <= Exact.int_max_str_digits ->
  Exact.digits (proof b) <= Exact.int_max_str_digits ->
  Exact.json_dumps (lift b) = Exact.Ok (Exact.of_ascii (json_dumps b)).
Proof.
  intros Hi Hp. unfold Exact.json_dumps, json_dumps, lift.
  cbn [Exact.index Exact.proof Exact.data Exact.timestamp
       Exact.previous_hash].
  rewrite (str_agrees _ Hi), (str_agrees _ Hp). cbn [Exact.bind].
  rewrite !json_key_agrees, !json_str_agrees, !of_ascii_app. reflexivity.
Qed.

#[local] Transparent hash_operation _hash Exact.hash_operation Exact._hash.

Lemma hash_agrees (b : Block) :
  Exact.digits (index b) <= Exact.int_max_str_digits ->
  Exact.digits (proof b) <= Exact.int_max_str_digits ->
  Exact._hash (lift b) = Exact.Ok (Exact.of_ascii (_hash b)).
Proof.
  intros Hi Hp. unfold Exact._hash, _hash.
  rewrite (json_dumps_agrees b Hi Hp). cbn [Exact.bind].
  rewrite encode_agrees. reflexivity.
Qed.

Lemma hash_operation_agrees (p pp idx : Z) (d : string) :
  Exact.digits (p ^ 2 - pp ^ 2 + idx) <= Exact.int_max_str_digits ->
  Exact.hash_operation p pp idx (Exact.of_ascii d)
  = Exact.Ok (Exact.of_ascii (hash_operation p pp idx d)).
Proof.
  intros H. unfold Exact.hash_operation, Exact._to_digest, hash_operation,
    _to_digest.
  rewrite (str_agrees _ H). cbn [Exact.bind].
  rewrite <- of_ascii_app, encode_agrees. reflexivity.
Qed.

#[local] Opaque hash_operation _hash Exact.hash_operation Exact._hash.

Lemma work_test_agrees (p pp idx : Z) (d : string) :
  Exact.digits (p ^ 2 - pp ^ 2 + idx) <= Exact.int_max_str_digits ->
  Exact.work_test p pp idx (Exact.of_ascii d)
  = Exact.Ok (work_condition p pp idx d).
Proof.
  intros H. unfold Exact.work_test, work_condition.
  rewrite (hash_operation_agrees _ _ _ _ H). cbn [Exact.bind].
  rewrite starts_0000_of_ascii. reflexivity.
Qed.

(** [validate_block] of both classes agree on a pair of blocks whose
    three numbers are within the limit of [str]. *)
Lemma validate_block_agrees (block previous_block : Block) :
  Exact.digits (index previous_block) <= Exact.int_max_str_digits ->
  Exact.digits (proof previous_block) <= Exact.int_max_str_digits ->
  Exact.digits (proof block ^ 2 - proof previous_block ^ 2 + index block)
  <= Exact.int_max_str_digits ->
  Exact.validate_block (lift block) (lift previous_block)
  = Exact.Ok (validate_block block previous_block).
Proof.
  intros Hi Hp Hw. rewrite exact_validate_block_eq.
  rewrite (hash_agrees _ Hi Hp). unfold lift.
  cbn [Exact.previous_hash Exact.proof Exact.index Exact.data].
  rewrite pystr_eqb_of_ascii, (work_test_agrees _ _ _ _ Hw).
  unfold validate_block, work_condition.
  destruct (String.eqb (previous_hash block) (_hash previous_block));
    cbn [negb]; [|reflexivity].
  destruct (String.eqb _ "0000"); reflexivity.
Qed.

Example agreement_on_the_sample :
  Exact.validate_block (lift Sample.b2) (lift Sample.b1)
  = Exact.Ok (validate_block Sample.b2 Sample.b1)
  /\ Exact._hash (lift Sample.b1) = Exact.Ok (Exact.of_ascii (_hash Sample.b1)).
Proof.
  split.
  - apply validate_block_agrees; vm_compute; lia.
  - apply hash_agrees; vm_compute; lia.
Qed.

Lemma exact_str_ok_digits (n : Z) (s : Exact.pystr) :
  Exact.str n = Exact.Ok s ->
  Exact.digits n <= Exact.int_max_str_digits.
Proof.
  unfold Exact.str.
  destruct (Nat.ltb_spec Exact.int_max_str_digits (Exact.digits n));
    [discriminate|]. intros _. assumption.
Qed.

Lemma hashed_bytes_agrees (b : Block) (x : list byte) :
  hashed_bytes (lift b) = Exact.Ok x -> x = encode (json_dumps b).
Proof.
  unfold hashed_bytes. intros H.
  assert (Exact.digits (index b) <= Exact.int_max_str_digits
          /\ Exact.digits (proof b) <= Exact.int_max_str_digits) as [Hi Hp].
  { unfold Exact.json_dumps in H. cbn [lift Exact.index Exact.proof] in H.
    destruct (Exact.str (index b)) as [i|e|] eqn:Ei; try discriminate.
    destruct (Exact.str (proof b)) as [p|e|] eqn:Ep; try discriminate.
    split; [exact (exact_str_ok_digits _ _ Ei)|].
    exact (exact_str_ok_digits _ _ Ep). }
  rewrite (json_dumps_agrees b Hi Hp) in H. cbn [Exact.bind] in H.
  rewrite encode_agrees in H. injection H as <-. reflexivity.
Qed.

Lemma exact_hash_of_bytes (b : Exact.Block) :
  Exact._hash b
  = Exact.bind (hashed_bytes b) (fun x => Exact.Ok (Exact.hexdigest x)).
Proof.
  rewrite exact_hash_unfold. unfold hashed_bytes.
  destruct (Exact.json_dumps b); reflexivity.
Qed.

(** X14. Where no string of a block holds a code point above U+00FF, the
    bytes that [_hash] digests determine the block: two such blocks that
    differ in any of the five fields are serialized by
    [json.dumps(sort_keys=True)] and [encode] to different bytes whenever
    both serializations are computed, so the same [_hash] for the two is
    a collision of SHA-256. *)
Theorem latin1_hashed_bytes_determine_block (b1 b2 : Block)
    (x1 x2 : list byte) :
  hashed_bytes (lift b1) = Exact.Ok x1 ->
  hashed_bytes (lift b2) = Exact.Ok x2 ->
  b1 <> b2 ->
  x1 <> x2
  /\ (Exact._hash (lift b1) = Exact._hash (lift b2) ->
      SHA256.hexdigest x1 = SHA256.hexdigest x2).
Proof.
  intros H1 H2 Hne. split.
  - rewrite (hashed_bytes_agrees _ _ H1), (hashed_bytes_agrees _ _ H2).
    intros E. apply Hne. apply json_dumps_inj. apply encode_inj. exact E.
  - rewrite !exact_hash_of_bytes, H1, H2. cbn [Exact.bind].
    intros E. apply exact_Ok_inj in E. exact (of_ascii_inj _ _ E).
Qed.

Lemma latin1_hashed_bytes_determine_block_witness :
  exists x1 x2 : list byte,
    hashed_bytes (lift Sample.g0) = Exact.Ok x1
    /\ hashed_bytes (lift Sample.b1) = Exact.Ok x2
    /\ x1 <> x2.
Proof.
  eexists _, _.
  assert (hashed_bytes (lift Sample.g0) = Exact.Ok (encode (json_dumps Sample.g0)))
    as H1 by (vm_compute; reflexivity).
  assert (hashed_bytes (lift Sample.b1) = Exact.Ok (encode (json_dumps Sample.b1)))
    as H2 by (vm_compute; reflexivity).
  split; [exact H1|]. split; [exact H2|].
  refine (proj1 (latin1_hashed_bytes_determine_block Sample.g0 Sample.b1
                   _ _ H1 H2 _)).
  discriminate.
Defined.
